(** * Ragify frontend: scroll-driven scene derivation and chat store

  A shallow embedding of two React components of the repository:

  - [ParallaxScene] (frontend/src/components/ParallaxScene.jsx): the
    scroll handler, the values derived from [scrollProgress], the sky
    gradient and the two randomly generated particle fields;
  - [ChatProvider] (src/context/ChatContext.jsx): the transcript store
    with [sendMessage], [toggleChat] and [clearChat];
  - [ChatBot] (frontend/src/components/ChatBot.jsx): the submit handler of
    the chat form and the gate of its send button.

  JavaScript numbers are modelled as exact rationals ([Q]); the literals
  of the source (0.8, 1.5, ...) are the rationals they denote.  Strings
  are sequences of code units below 256. *)

From Stdlib Require Import QArith Qminmax Lqa ZArith Lia.
From Stdlib Require Import Bool List String Ascii Sorted.
Import ListNotations.

(** ** JavaScript numbers and the operators the components use *)

Module JS.
Open Scope Q_scope.

(** [a < b] on numbers. *)
Definition lt (a b : Q) : bool := negb (Qle_bool b a).

(** [a > b] on numbers. *)
Definition gt (a b : Q) : bool := lt b a.

(** [a || b] on numbers: [0] is the falsy number. *)
Definition or (a b : Q) : Q := if Qeq_bool a 0 then b else a.

Definition Math_min (a b : Q) : Q := Qmin a b.
Definition Math_max (a b : Q) : Q := Qmax a b.

(** [Math.random()] reads the next value of a generator owned by the
    page: the generator is a stream of draws, and a call returns its head
    and leaves the tail. *)
Definition Rng : Type := nat -> Q.

Definition Rand (A : Type) : Type := Rng -> A * Rng.

Definition ret {A} (a : A) : Rand A := fun r => (a, r).

Definition bind {A B} (m : Rand A) (k : A -> Rand B) : Rand B :=
  fun r => let (a, r') := m r in k a r'.

Definition Math_random : Rand Q := fun r => (r O, fun n => r (S n)).

(** [Array.from({ length: n }).map((_, i) => f i)], the callback run for
    [i = start, start+1, ...] in order. *)
Fixpoint mapIndex {A} (f : nat -> Rand A) (start n : nat) : Rand (list A) :=
  match n with
  | O => ret []
  | S n' =>
      bind (f start) (fun a =>
      bind (mapIndex f (S start) n') (fun rest =>
      ret (a :: rest)))
  end.

(** [m] consumes exactly [k] draws, and its result is a function of
    those [k] draws alone. *)
Definition reads {A} (k : nat) (m : Rand A) : Prop :=
  (forall r r', (forall j, (j < k)%nat -> r j = r' j) -> fst (m r) = fst (m r'))
  /\ (forall r n, snd (m r) n = r (k + n)%nat).
End JS.

Notation "x <- m ;; k" := (JS.bind m (fun x => k))
(at level 61, m at next level, right associativity).

(** ** ParallaxScene.jsx *)

Module Scene.
Import JS.
Open Scope Q_scope.

(** What the scroll handler reads from [window] and [document]. *)
Record ScrollSample := {
  pageYOffset : Q;          (* window.pageYOffset *)
  docScrollTop : Q;         (* document.documentElement.scrollTop *)
  docScrollHeight : Q;      (* document.documentElement.scrollHeight *)
  innerHeight : Q           (* window.innerHeight *)
}.

(** [handleScroll]: the value passed to [setScrollProgress]. *)
Definition handleScroll (w : ScrollSample) : Q :=
  let scrollTop := or (pageYOffset w) (docScrollTop w) in
  let scrollHeight := docScrollHeight w - innerHeight w in
  let progress := if gt scrollHeight 0 then scrollTop / scrollHeight else 0 in
  Math_min (Math_max progress 0) 1.

(** The component state, [useState(0)]. *)
Definition initialScrollProgress : Q := 0.

(** Transform values based on scroll progress. *)
Definition skyOpacity (scrollProgress : Q) : Q := 1 - (scrollProgress * 0.8).
Definition mountainFarY (scrollProgress : Q) : Q := scrollProgress * 10.
Definition mountainMidY (scrollProgress : Q) : Q := scrollProgress * 15.
Definition mountainCloseY (scrollProgress : Q) : Q := scrollProgress * 20.
Definition waterfallScale (scrollProgress : Q) : Q := 1 + (scrollProgress * 0.2).
Definition treesY (scrollProgress : Q) : Q := scrollProgress * 5.
Definition futuristicElementsOpacity (scrollProgress : Q) : Q :=
  Math_min (0.2 + (scrollProgress * 0.8)) 1.
Definition futuristicElementsScale (scrollProgress : Q) : Q :=
  0.9 + (scrollProgress * 0.2).
Definition moonTop (scrollProgress : Q) : Q := 100 - (scrollProgress * 80).
Definition moonOpacity (scrollProgress : Q) : Q := Math_min (scrollProgress * 2) 1.
Definition starsOpacity (scrollProgress : Q) : Q := Math_min (scrollProgress * 1.5) 1.

(** Sky gradient calculation. *)
Definition getSkyGradient (scrollProgress : Q) : string :=
  if lt scrollProgress 0.5 then
    "linear-gradient(to bottom, #1e40af 0%, #3b82f6 50%, #93c5fd 100%)"%string
  else if lt scrollProgress 1 then
    "linear-gradient(to bottom, #1e3a8a 0%, #1e40af 50%, #3b82f6 100%)"%string
  else
    "linear-gradient(to bottom, #0f172a 0%, #1e293b 50%, #334155 100%)"%string.

(** One star of the night sky, as rendered: the [key] and the style. *)
Record Star := {
  star_key : nat;
  star_x : Q;
  star_y : Q;
  star_size : Q;
  star_opacity : Q;
  star_animationDelay : Q
}.

Definition renderStar (i : nat) : Rand Star :=
  r1 <- Math_random ;; let x := r1 * 100 in
  r2 <- Math_random ;; let y := r2 * 100 in
  r3 <- Math_random ;; let size := r3 * 2 + 1 in
  r4 <- Math_random ;; let opacity := r4 * 0.7 + 0.3 in
  r5 <- Math_random ;; let animationDelay := r5 * 5 in
  ret {| star_key := i; star_x := x; star_y := y; star_size := size;
         star_opacity := opacity; star_animationDelay := animationDelay |}.

(** One glowing dot of the futuristic overlay. *)
Record Dot := {
  dot_key : nat;
  dot_x : Q;
  dot_y : Q;
  dot_size : Q;
  dot_color : string;
  dot_shadow : string;
  dot_animationDelay : Q
}.

Definition renderDot (i : nat) : Rand Dot :=
  r1 <- Math_random ;; let x := r1 * 100 in
  r2 <- Math_random ;; let y := r2 * 40 + 10 in
  r3 <- Math_random ;; let size := r3 * 3 + 2 in
  r4 <- Math_random ;; let isBlue := gt r4 0.5 in
  let color := (if isBlue then "bg-blue-400" else "bg-pink-400")%string in
  let shadow := (if isBlue then "neon-glow" else "neon-glow-accent")%string in
  r5 <- Math_random ;;
  ret {| dot_key := i; dot_x := x; dot_y := y; dot_size := size;
         dot_color := color; dot_shadow := shadow;
         dot_animationDelay := r5 * 2 |}.

(** What one call of the component function hands to the renderer. *)
Record SceneView := {
  sky_background : string;
  sky_opacity : Q;
  stars_opacity : Q;
  stars : list Star;
  moon_top : Q;
  moon_opacity : Q;
  mountain_far_y : Q;
  mountain_mid_y : Q;
  mountain_close_y : Q;
  waterfall_scale : Q;
  trees_y : Q;
  futuristic_opacity : Q;
  futuristic_scale : Q;
  dots : list Dot;
  torii_y : Q;
  torii_scale : Q
}.

(** The component function: one call per render, in the order in which
    the JSX expressions are evaluated (the stars before the dots). *)
Definition ParallaxScene (scrollProgress : Q) : Rand SceneView :=
  starField <- mapIndex renderStar 0 100 ;;
  glowingDots <- mapIndex renderDot 0 20 ;;
  ret {| sky_background := getSkyGradient scrollProgress;
         sky_opacity := skyOpacity scrollProgress;
         stars_opacity := starsOpacity scrollProgress;
         stars := starField;
         moon_top := moonTop scrollProgress;
         moon_opacity := moonOpacity scrollProgress;
         mountain_far_y := mountainFarY scrollProgress;
         mountain_mid_y := mountainMidY scrollProgress;
         mountain_close_y := mountainCloseY scrollProgress;
         waterfall_scale := waterfallScale scrollProgress;
         trees_y := treesY scrollProgress;
         futuristic_opacity := futuristicElementsOpacity scrollProgress;
         futuristic_scale := futuristicElementsScale scrollProgress;
         dots := glowingDots;
         torii_y := scrollProgress * 3;
         torii_scale := 1 + scrollProgress * 0.05 |}.

(** Two renders of one mounted component, the second after a scroll: the
    generator is the page's, so the second render continues where the
    first one stopped. *)
Definition renderTwice (p1 p2 : Q) : Rand (SceneView * SceneView) :=
  v1 <- ParallaxScene p1 ;;
  v2 <- ParallaxScene p2 ;;
  ret (v1, v2).

(** The particle fields of a view. *)
Definition particles (v : SceneView) : list Star * list Dot :=
  (stars v, dots v).

(** A generator for experiments: the draws 0/997, 1/997, ... cycling, all
    in the range of [Math.random()]. *)
Definition cyclingRng : Rng := fun n => Z.of_nat (n mod 997) # 997.
End Scene.

(** The sky phases in the words of the specification: progress below the
  first breakpoint is Day, below the second is Dusk, otherwise Night; each
  phase has one gradient descriptor. *)

Module SkySpec.
Open Scope Q_scope.

Inductive SkyPhase := Day | Dusk | Night.

Definition firstBreakpoint : Q := 0.5.
Definition secondBreakpoint : Q := 1.0.

Definition phaseOf (progress : Q) : SkyPhase :=
  match Qlt_le_dec progress firstBreakpoint with
  | left _ => Day
  | right _ =>
      match Qlt_le_dec progress secondBreakpoint with
      | left _ => Dusk
      | right _ => Night
      end
  end.

Definition gradientOf (ph : SkyPhase) : string :=
  match ph with
  | Day => "linear-gradient(to bottom, #1e40af 0%, #3b82f6 50%, #93c5fd 100%)"
  | Dusk => "linear-gradient(to bottom, #1e3a8a 0%, #1e40af 50%, #3b82f6 100%)"
  | Night => "linear-gradient(to bottom, #0f172a 0%, #1e293b 50%, #334155 100%)"
  end%string.
End SkySpec.

(** ** JavaScript strings *)

Module JSString.
Open Scope string_scope.

(** White space and line terminators of ECMAScript among the code units
    below 256: TAB, LF, VT, FF, CR, SP and NBSP. *)
Definition isWhiteSpace (c : ascii) : bool :=
  let n := nat_of_ascii c in
  ((n =? 9) || (n =? 10) || (n =? 11) || (n =? 12) || (n =? 13)
   || (n =? 32) || (n =? 160))%nat.

Fixpoint trimStart (s : string) : string :=
  match s with
  | EmptyString => EmptyString
  | String c s' => if isWhiteSpace c then trimStart s' else s
  end.

Fixpoint trimEnd (s : string) : string :=
  match s with
  | EmptyString => EmptyString
  | String c s' =>
      match trimEnd s' with
      | EmptyString => if isWhiteSpace c then EmptyString else String c EmptyString
      | t => String c t
      end
  end.

(** [s.trim()] *)
Definition trim (s : string) : string := trimEnd (trimStart s).

(** Lower-casing of one code unit below 256: A-Z, and the Latin-1
    capitals U+00C0..U+00DE except the multiplication sign U+00D7. *)
Definition lowerChar (c : ascii) : ascii :=
  let n := nat_of_ascii c in
  if ((65 <=? n) && (n <=? 90))%nat then ascii_of_nat (n + 32)
  else if ((192 <=? n) && (n <=? 222) && negb (n =? 215))%nat
       then ascii_of_nat (n + 32)
       else c.

(** [s.toLowerCase()] *)
Fixpoint toLowerCase (s : string) : string :=
  match s with
  | EmptyString => EmptyString
  | String c s' => String (lowerChar c) (toLowerCase s')
  end.

(** [s.includes(sub)] *)
Fixpoint includes (s sub : string) : bool :=
  if prefix sub s then true
  else match s with
       | EmptyString => false
       | String _ s' => includes s' sub
       end.

(** Truthiness of a string: only the empty string is falsy. *)
Definition truthy (s : string) : bool :=
  match s with EmptyString => false | _ => true end.
End JSString.

(** ** ChatContext.jsx *)

Module Chat.
Import JSString.
Open Scope Z_scope.
Open Scope string_scope.
Open Scope list_scope.

(** A transcript entry.  [id] is a number; [timestamp] is the instant
    (epoch milliseconds) that [new Date().toISOString()] renders. *)
Record Message := {
  id : Z;
  text : string;
  sender : string;
  timestamp : Z
}.

(** The three [useState] cells of [ChatProvider]. *)
Record ChatState := {
  messages : list Message;
  isOpen : bool;
  isLoading : bool
}.

(** A [sendMessage] call parked at its [await]: the text it closed over
    and the delay it gave to [setTimeout]. *)
Record Suspended := {
  susp_text : string;
  susp_delay : Z
}.

(** The provider together with what surrounds it: the console and the
    [sendMessage] calls waiting for their timer, oldest first. *)
Record Runtime := {
  chat : ChatState;
  console : list string;
  waiting : list Suspended
}.

Inductive Exn := Error (what : string).

(** Statements of the provider: they update the runtime and either
    complete with a value or throw. *)
Definition Eff (A : Type) : Type := Runtime -> Runtime * (Exn + A).

Definition pure {A} (a : A) : Eff A := fun w => (w, inr a).

Definition throw {A} (e : Exn) : Eff A := fun w => (w, inl e).

Definition seq {A B} (m : Eff A) (k : A -> Eff B) : Eff B :=
  fun w => match m w with
           | (w', inl e) => (w', inl e)
           | (w', inr a) => k a w'
           end.

(** [try { body } catch (error) { handler } finally { fin }] *)
Definition try_catch_finally {A} (body : Eff A) (handler : Exn -> Eff A)
    (fin : Eff unit) : Eff A :=
  fun w =>
    let (w1, r1) := match body w with
                    | (w', inl e) => handler e w'
                    | (w', inr a) => (w', inr a)
                    end in
    match fin w1 with
    | (w2, inl e) => (w2, inl e)
    | (w2, inr _) => (w2, r1)
    end.

Definition setMessages (f : list Message -> list Message) : Eff unit :=
  fun w =>
    let c := chat w in
    ({| chat := {| messages := f (messages c); isOpen := isOpen c;
                   isLoading := isLoading c |};
        console := console w; waiting := waiting w |}, inr tt).

Definition setIsOpen (f : bool -> bool) : Eff unit :=
  fun w =>
    let c := chat w in
    ({| chat := {| messages := messages c; isOpen := f (isOpen c);
                   isLoading := isLoading c |};
        console := console w; waiting := waiting w |}, inr tt).

Definition setIsLoading (b : bool) : Eff unit :=
  fun w =>
    let c := chat w in
    ({| chat := {| messages := messages c; isOpen := isOpen c;
                   isLoading := b |};
        console := console w; waiting := waiting w |}, inr tt).

Definition console_error (line : string) : Eff unit :=
  fun w => ({| chat := chat w; console := console w ++ [line];
               waiting := waiting w |}, inr tt).

(** [await new Promise(resolve => setTimeout(resolve, delay))], first
    half: the call is parked behind the ones already waiting. *)
Definition park (t : string) (delay : Z) : Eff unit :=
  fun w => ({| chat := chat w; console := console w;
               waiting := waiting w ++ [{| susp_text := t; susp_delay := delay |}] |},
            inr tt).

(** How the awaited promise settled. *)
Inductive Settled := Resolved | Rejected (e : Exn).

(** [await], second half: a rejection is thrown at the [await]. *)
Definition awaited (s : Settled) : Eff unit :=
  match s with
  | Resolved => pure tt
  | Rejected e => throw e
  end.

Notation "m >>> k" := (seq m (fun _ => k))
  (at level 62, right associativity).

Definition greetingText : string :=
  "Welcome to Neo Japan. How may I assist you today?".

(** The argument of [useState] for [messages], evaluated at mount. *)
Definition initialMessages (ts : Z) : list Message :=
  [ {| id := 1; text := greetingText; sender := "bot"; timestamp := ts |} ].

Definition mount (ts : Z) : Runtime :=
  {| chat := {| messages := initialMessages ts; isOpen := false;
                isLoading := false |};
     console := [];
     waiting := [] |}.

Definition helloResponse : string :=
  "Hello! Welcome to Neo Japan. How can I help you explore our world?".
Definition japanResponse : string :=
  "Japan is known for its unique blend of ancient traditions and futuristic technology. Our landscape brings this duality to life.".
Definition waterResponse : string :=
  "The waterfalls you see represent the flow of time, connecting the traditional past with the technological future.".
Definition futureResponse : string :=
  "The futuristic elements symbolize Japan's innovation and technological advancements, creating harmony with natural beauty.".
Definition defaultResponse : string :=
  "Thank you for your interest. As you explore our Neo Japan landscape, feel free to ask about the waterfalls, mountains, technology, or any element you see.".
Definition apologyText : string :=
  "I apologize, but I'm having trouble connecting. Please try again later.".

(** Mock response generation: the [if]/[else if] chain of [sendMessage]. *)
Definition mockResponse (text : string) : string :=
  if includes (toLowerCase text) "hello" || includes (toLowerCase text) "hi"
  then helloResponse
  else if includes (toLowerCase text) "japan" || includes (toLowerCase text) "japanese"
  then japanResponse
  else if includes (toLowerCase text) "waterfall" || includes (toLowerCase text) "water"
  then waterResponse
  else if includes (toLowerCase text) "future" || includes (toLowerCase text) "technology"
  then futureResponse
  else defaultResponse.

(** [sendMessage(text)] from the call to its [await].  [now] is what
    [Date.now()] reads and [ts] what [new Date()] reads. *)
Definition sendMessage (text : string) (now ts : Z) : Eff unit :=
  if negb (truthy (trim text)) then pure tt
  else
    let userMessage :=
      {| id := now; text := text; sender := "user"; timestamp := ts |} in
    setMessages (fun prev => prev ++ [userMessage]) >>>
    setIsLoading true >>>
    park text 1000.

(** [sendMessage(text)] from its [await] to its end, run when the timer
    fires; the clock is read again. *)
Definition sendMessage_resumed (text : string) (settled : Settled)
    (now ts : Z) : Eff unit :=
  try_catch_finally
    (awaited settled >>>
     let response := mockResponse text in
     let botMessage :=
       {| id := now + 1; text := response; sender := "bot"; timestamp := ts |} in
     setMessages (fun prev => prev ++ [botMessage]))
    (fun error =>
     console_error "Error sending message:" >>>
     let errorMessage :=
       {| id := now + 1; text := apologyText; sender := "bot"; timestamp := ts |} in
     setMessages (fun prev => prev ++ [errorMessage]))
    (setIsLoading false).

Definition toggleChat : Eff unit := setIsOpen negb.

Definition clearChat (ts : Z) : Eff unit :=
  setMessages (fun _ =>
    [ {| id := 1; text := greetingText; sender := "bot"; timestamp := ts |} ]).

(** What can happen to a mounted provider.  Timers of equal delay fire in
    the order in which they were set, so a firing timer resumes the call
    that has waited longest. *)
Inductive Event :=
| CallSendMessage (text : string) (now ts : Z)
| TimerFires (settled : Settled) (now ts : Z)
| CallToggleChat
| CallClearChat (ts : Z).

Definition dispatch (ev : Event) (w : Runtime)
    : option (Runtime * (Exn + unit)) :=
  match ev with
  | CallSendMessage t now ts => Some (sendMessage t now ts w)
  | TimerFires settled now ts =>
      match waiting w with
      | [] => None
      | s :: rest =>
          Some (sendMessage_resumed (susp_text s) settled now ts
                  {| chat := chat w; console := console w; waiting := rest |})
      end
  | CallToggleChat => Some (toggleChat w)
  | CallClearChat ts => Some (clearChat ts w)
  end.

Fixpoint run (evs : list Event) (w : Runtime) : option Runtime :=
  match evs with
  | [] => Some w
  | ev :: evs' =>
      match dispatch ev w with
      | None => None
      | Some (w', _) => run evs' w'
      end
  end.

(** The id an event draws from the clock, if it draws one. *)
Definition drawnId (ev : Event) : option Z :=
  match ev with
  | CallSendMessage t now _ => if truthy (trim t) then Some now else None
  | TimerFires _ now _ => Some (now + 1)
  | CallToggleChat | CallClearChat _ => None
  end.

Fixpoint drawnIds (evs : list Event) : list Z :=
  match evs with
  | [] => []
  | ev :: evs' =>
      match drawnId ev with
      | Some z => z :: drawnIds evs'
      | None => drawnIds evs'
      end
  end.

Definition ids (w : Runtime) : list Z := map id (messages (chat w)).

(** The response policy in the words of the specification: an ordered
    list of (keywords, response) rules over the lowercased text, the first
    matching rule wins, with a default when none matches. *)
Definition keywordRules : list (list string * string) :=
  [ (["hello"; "hi"], helloResponse);
    (["japan"; "japanese"], japanResponse);
    (["waterfall"; "water"], waterResponse);
    (["future"; "technology"], futureResponse) ].

Fixpoint firstMatch (rules : list (list string * string)) (default : string)
    (lowered : string) : string :=
  match rules with
  | [] => default
  | (keywords, response) :: rest =>
      if existsb (includes lowered) keywords then response
      else firstMatch rest default lowered
  end.
End Chat.

(** ** Ranges of what the component renders *)

Module Ranges.
Import JS Scene.
Open Scope Q_scope.




(** The two looks a glowing dot can have. *)
Definition dotLook (d : Dot) : Prop :=
  (dot_color d = "bg-blue-400" /\ dot_shadow d = "neon-glow")%string
  \/ (dot_color d = "bg-pink-400" /\ dot_shadow d = "neon-glow-accent")%string.

(** The scroll offset the handler goes by. *)
Definition scrollTopOf (w : ScrollSample) : Q :=
  or (pageYOffset w) (docScrollTop w).

(** The scrollable extent the handler divides by. *)
Definition extentOf (w : ScrollSample) : Q :=
  docScrollHeight w - innerHeight w.
End Ranges.

(** ** ChatBot.jsx *)

Module ChatBot.
Import JSString Chat.
Open Scope string_scope.

(** [handleSubmit], on the component's [input] state and the provider;
    the value is the [input] afterwards.  ([e.preventDefault()] concerns
    the browser's own form handling only.) *)
Definition handleSubmit (input : string) (now ts : Z) : Eff string :=
  if truthy (trim input) then
    seq (sendMessage input now ts) (fun _ => pure "")
  else pure input.

(** The [disabled] attribute of the send button:
    [!input.trim() || isLoading]. *)
Definition sendDisabled (input : string) (loading : bool) : bool :=
  negb (truthy (trim input)) || loading.
End ChatBot.

(** ** Views of the transcript and of event traces *)

Module Transcript.
Import JSString Chat ChatBot.
Open Scope string_scope.
Open Scope list_scope.

Definition isUser (m : Message) : bool := String.eqb (sender m) "user".
Definition isBot (m : Message) : bool := String.eqb (sender m) "bot".

(** The texts a bot message can carry. *)
Definition botTexts : list string :=
  [greetingText; helloResponse; japanResponse; waterResponse;
   futureResponse; defaultResponse; apologyText].

(** A message as the provider makes them: from the user with a text that
    is not blank, or from the bot with one of its fixed texts. *)
Definition wellFormed (m : Message) : Prop :=
  (sender m = "user" /\ trim (text m) <> "")
  \/ (sender m = "bot" /\ In (text m) botTexts).

(** The greeting, whatever its timestamp. *)
Definition isGreeting (m : Message) : Prop :=
  id m = 1%Z /\ text m = greetingText /\ sender m = "bot".

(** A parked call as [sendMessage] parks them. *)
Definition wellParked (s : Suspended) : Prop :=
  susp_delay s = 1000%Z /\ trim (susp_text s) <> "".

(** A reply answers a question: the mock response to it, or the apology. *)
Definition answers (question : string) (reply : Message) : Prop :=
  text reply = mockResponse question \/ text reply = apologyText.

Definition isClear (ev : Event) : bool :=
  match ev with CallClearChat _ => true | _ => false end.

Definition isToggle (ev : Event) : bool :=
  match ev with CallToggleChat => true | _ => false end.

(** Two runtimes that differ at most in [isOpen]. *)
Definition sameConversation (w1 w2 : Runtime) : Prop :=
  messages (chat w1) = messages (chat w2)
  /\ isLoading (chat w1) = isLoading (chat w2)
  /\ console w1 = console w2
  /\ waiting w1 = waiting w2.

(** Every [sendMessage] call of the trace is made while the send button
    is enabled for its text. *)
Fixpoint gated (evs : list Event) (w : Runtime) : Prop :=
  match evs with
  | [] => True
  | ev :: evs' =>
      match ev with
      | CallSendMessage t _ _ => sendDisabled t (isLoading (chat w)) = false
      | _ => True
      end
      /\ match dispatch ev w with
         | Some (w', _) => gated evs' w'
         | None => True
         end
  end.

(** All code units of a string are white space. *)
Fixpoint allWhiteSpace (s : string) : bool :=
  match s with
  | EmptyString => true
  | String c s' => isWhiteSpace c && allWhiteSpace s'
  end.
End Transcript.


(** * Properties of the scene derivation *)

Section SceneProperties.
Import JS Scene SkySpec.
Open Scope Q_scope.

Lemma lt_true_iff (a b : Q) : lt a b = true <-> a < b.
Proof.
  unfold lt. rewrite negb_true_iff.
  split; intro H.
  - apply Qnot_le_lt. intro Hle. apply Qle_bool_iff in Hle. congruence.
  - destruct (Qle_bool b a) eqn:E; [|reflexivity].
    apply Qle_bool_iff in E. exfalso. apply (Qlt_not_le _ _ H E).
Qed.

Lemma lt_false_iff (a b : Q) : lt a b = false <-> b <= a.
Proof.
  unfold lt. rewrite negb_false_iff. apply Qle_bool_iff.
Qed.

Lemma Math_min_le_r (a b : Q) : Math_min a b <= b.
Proof. apply Q.le_min_r. Qed.

Lemma Math_min_glb (a b c : Q) : c <= a -> c <= b -> c <= Math_min a b.
Proof. intros. apply Q.min_glb; assumption. Qed.

Lemma Math_max_ge_r (a b : Q) : b <= Math_max a b.
Proof. apply Q.le_max_r. Qed.

(** The gradient returned by the component is the one of the phase that
    the breakpoints select. *)
Lemma getSkyGradient_phase (p : Q) : getSkyGradient p = gradientOf (phaseOf p).
Proof.
  unfold getSkyGradient, phaseOf, firstBreakpoint, secondBreakpoint.
  destruct (Qlt_le_dec p 0.5) as [H1|H1].
  - apply lt_true_iff in H1. rewrite H1. reflexivity.
  - apply lt_false_iff in H1. rewrite H1.
    destruct (Qlt_le_dec p 1.0) as [H2|H2].
    + assert (H2' : p < 1) by lra.
      apply lt_true_iff in H2'. rewrite H2'. reflexivity.
    + assert (H2' : 1 <= p) by lra.
      apply lt_false_iff in H2'. rewrite H2'. reflexivity.
Qed.

(** C2. The sky gradient is chosen by comparing progress with the two
    breakpoints 0.5 and 1.0, a tie going to the later phase: 0.49 is Day,
    0.5 is Dusk, 0.99 is Dusk and 1.0 is Night, and the three phases have
    three fixed, distinct gradient descriptors. *)
Theorem C2_sky_phase_selection :
  (forall p, getSkyGradient p = gradientOf (phaseOf p))
  /\ phaseOf 0.49 = Day /\ getSkyGradient 0.49 = gradientOf Day
  /\ phaseOf 0.5 = Dusk /\ getSkyGradient 0.5 = gradientOf Dusk
  /\ phaseOf 0.99 = Dusk /\ getSkyGradient 0.99 = gradientOf Dusk
  /\ phaseOf 1.0 = Night /\ getSkyGradient 1.0 = gradientOf Night
  /\ gradientOf Day <> gradientOf Dusk
  /\ gradientOf Dusk <> gradientOf Night
  /\ gradientOf Day <> gradientOf Night.
Proof.
  split; [exact getSkyGradient_phase|].
  repeat split; try reflexivity; discriminate.
Qed.

(** C3. For progress values 0 <= p1 < p2 <= 1 each mountain layer's offset
    is non-decreasing, and at every progress p in [0,1] the far offset is
    at most the mid offset, which is at most the close offset, strictly so
    once p > 0. *)
Theorem C3_parallax_depth_ordering (p1 p2 p : Q) :
  0 <= p1 -> p1 < p2 -> p2 <= 1 -> 0 <= p <= 1 ->
  (mountainFarY p1 <= mountainFarY p2
   /\ mountainMidY p1 <= mountainMidY p2
   /\ mountainCloseY p1 <= mountainCloseY p2)
  /\ (mountainFarY p <= mountainMidY p /\ mountainMidY p <= mountainCloseY p)
  /\ (0 < p ->
      mountainFarY p < mountainMidY p
      /\ mountainFarY p < mountainCloseY p
      /\ mountainMidY p < mountainCloseY p).
Proof.
  unfold mountainFarY, mountainMidY, mountainCloseY.
  intros H0 H12 H1 [Hp0 Hp1].
  repeat split; try lra.
  all: intros; lra.
Qed.

Lemma C3_parallax_depth_ordering_witness :
  (mountainFarY 0.25 <= mountainFarY 0.75
   /\ mountainMidY 0.25 <= mountainMidY 0.75
   /\ mountainCloseY 0.25 <= mountainCloseY 0.75)
  /\ (mountainFarY 0.5 <= mountainMidY 0.5
      /\ mountainMidY 0.5 <= mountainCloseY 0.5)
  /\ (mountainFarY 0.5 < mountainMidY 0.5
      /\ mountainFarY 0.5 < mountainCloseY 0.5
      /\ mountainMidY 0.5 < mountainCloseY 0.5).
Proof.
  assert (H0 : 0 <= 0.25) by (vm_compute; discriminate).
  assert (H12 : 0.25 < 0.75) by reflexivity.
  assert (H1 : 0.75 <= 1) by (vm_compute; discriminate).
  assert (Hp : 0 <= 0.5 <= 1) by (split; vm_compute; discriminate).
  destruct (C3_parallax_depth_ordering 0.25 0.75 0.5 H0 H12 H1 Hp)
    as [Hm [Ho Hs]].
  split; [exact Hm|]. split; [exact Ho|].
  apply Hs. reflexivity.
Defined.

(** The fields of a view that do not come from the particle fields are
    the derived values of the progress the component was called with. *)
Lemma view_fields (p : Q) (r : Rng) :
  let v := fst (ParallaxScene p r) in
  sky_opacity v = skyOpacity p
  /\ moon_opacity v = moonOpacity p
  /\ stars_opacity v = starsOpacity p
  /\ futuristic_opacity v = futuristicElementsOpacity p
  /\ waterfall_scale v = waterfallScale p.
Proof.
  unfold ParallaxScene, bind, ret.
  destruct (mapIndex renderStar 0 100 r) as [ss r1].
  destruct (mapIndex renderDot 0 20 r1) as [ds r2].
  cbn. repeat split.
Qed.

(** C4. For every progress in [0,1] and whatever the generator holds, the
    view has sky, moon, star-field and tech-overlay opacities in [0,1],
    the tech-overlay opacity in [0.2, 1.0], and a water scale of at
    least 1. *)
Theorem C4_derived_fields_in_range (p : Q) (r : Rng) :
  0 <= p <= 1 ->
  let v := fst (ParallaxScene p r) in
  0 <= sky_opacity v <= 1
  /\ 0 <= moon_opacity v <= 1
  /\ 0 <= stars_opacity v <= 1
  /\ 0 <= futuristic_opacity v <= 1
  /\ 0.2 <= futuristic_opacity v <= 1.0
  /\ 1 <= waterfall_scale v.
Proof.
  intros [H0 H1] v.
  destruct (view_fields p r) as (Es & Em & Est & Ef & Ew).
  fold v in Es, Em, Est, Ef, Ew.
  rewrite Es, Em, Est, Ef, Ew.
  unfold skyOpacity, moonOpacity, starsOpacity, futuristicElementsOpacity,
    waterfallScale.
  assert (Hf : 0.2 <= Math_min (0.2 + p * 0.8) 1)
    by (apply Math_min_glb; lra).
  assert (Hf1 : Math_min (0.2 + p * 0.8) 1 <= 1) by apply Math_min_le_r.
  repeat split; try lra.
  - apply Math_min_glb; lra.
  - apply Math_min_le_r.
  - apply Math_min_glb; lra.
  - apply Math_min_le_r.
Qed.

Lemma C4_derived_fields_in_range_witness :
  let v := fst (ParallaxScene 0.5 cyclingRng) in
  0 <= sky_opacity v <= 1
  /\ 0 <= moon_opacity v <= 1
  /\ 0 <= stars_opacity v <= 1
  /\ 0 <= futuristic_opacity v <= 1
  /\ 0.2 <= futuristic_opacity v <= 1.0
  /\ 1 <= waterfall_scale v.
Proof.
  apply (C4_derived_fields_in_range 0.5 cyclingRng).
  split; vm_compute; discriminate.
Defined.

(** C5. Whatever the scroll handler reads (any offsets, any document and
    window heights), the progress it stores lies in [0,1]; when the
    scrollable extent is zero or negative it stores 0, the division not
    being evaluated. *)
Theorem C5_handleScroll_clamped (w : ScrollSample) :
  0 <= handleScroll w <= 1
  /\ (docScrollHeight w - innerHeight w <= 0 -> handleScroll w == 0).
Proof.
  unfold handleScroll. split.
  - split.
    + apply Math_min_glb; [apply Math_max_ge_r | lra].
    + apply Math_min_le_r.
  - intro Hext.
    assert (E : gt (docScrollHeight w - innerHeight w) 0 = false)
      by (unfold gt; apply lt_false_iff; exact Hext).
    rewrite E. reflexivity.
Qed.

Lemma C5_handleScroll_clamped_witness :
  let w := {| pageYOffset := 120; docScrollTop := 120;
              docScrollHeight := 600; innerHeight := 800 |} in
  docScrollHeight w - innerHeight w <= 0
  /\ handleScroll w == 0
  /\ 0 <= handleScroll w <= 1.
Proof.
  intro w.
  assert (Hext : docScrollHeight w - innerHeight w <= 0)
    by (vm_compute; discriminate).
  destruct (C5_handleScroll_clamped w) as [Hr Hz].
  split; [exact Hext|]. split; [exact (Hz Hext) | exact Hr].
Defined.

Lemma reads_ret {A} (a : A) : reads 0 (ret a).
Proof. split; intros; reflexivity. Qed.

Lemma reads_Math_random : reads 1 Math_random.
Proof.
  split.
  - intros r r' H. cbn. apply H. lia.
  - intros r n. reflexivity.
Qed.

Lemma reads_bind {A B} (k k' : nat) (m : Rand A) (g : A -> Rand B) :
  reads k m -> (forall a, reads k' (g a)) -> reads (k + k') (bind m g).
Proof.
  intros [Hm1 Hm2] Hg. split.
  - intros r r' H. unfold bind.
    assert (Ea : fst (m r) = fst (m r')) by (apply Hm1; intros; apply H; lia).
    assert (Et : forall j, (j < k')%nat -> snd (m r) j = snd (m r') j).
    { intros j Hj. rewrite !Hm2. apply H. lia. }
    destruct (m r) as [a t], (m r') as [a' t']. cbn in Ea, Et. subst a'.
    apply (proj1 (Hg a)). exact Et.
  - intros r n. unfold bind.
    pose proof (Hm2 r) as Ht.
    destruct (m r) as [a t]. cbn in Ht.
    rewrite (proj2 (Hg a)). rewrite Ht. f_equal. lia.
Qed.

Lemma reads_mapIndex {A} (k : nat) (f : nat -> Rand A) :
  (forall i, reads k (f i)) ->
  forall n start, reads (n * k) (mapIndex f start n).
Proof.
  intros Hf. induction n as [|n IH]; intro start.
  - apply reads_ret.
  - cbn [mapIndex Nat.mul].
    apply reads_bind; [apply Hf|]. intro a.
    replace (n * k)%nat with (n * k + 0)%nat by lia.
    apply reads_bind; [apply IH|]. intro rest. apply reads_ret.
Qed.

Lemma mapIndex_length {A} (f : nat -> Rand A) (n start : nat) (r : Rng) :
  List.length (fst (mapIndex f start n r)) = n.
Proof.
  revert start r. induction n as [|n IH]; intros start r; [reflexivity|].
  cbn [mapIndex]. unfold bind, ret.
  destruct (f start r) as [a t].
  specialize (IH (S start) t).
  destruct (mapIndex f (S start) n t) as [rest t'].
  cbn in *. congruence.
Qed.

Lemma reads_renderStar (i : nat) : reads 5 (renderStar i).
Proof.
  unfold renderStar.
  repeat (apply (reads_bind 1); [apply reads_Math_random | intro]).
  apply reads_ret.
Qed.

Lemma reads_renderDot (i : nat) : reads 5 (renderDot i).
Proof.
  unfold renderDot.
  repeat (apply (reads_bind 1); [apply reads_Math_random | intro]).
  apply reads_ret.
Qed.

Lemma view_particles (p : Q) (r : Rng) :
  stars (fst (ParallaxScene p r)) = fst (mapIndex renderStar 0 100 r)
  /\ dots (fst (ParallaxScene p r))
     = fst (mapIndex renderDot 0 20 (snd (mapIndex renderStar 0 100 r)))
  /\ snd (ParallaxScene p r)
     = snd (mapIndex renderDot 0 20 (snd (mapIndex renderStar 0 100 r))).
Proof.
  unfold ParallaxScene, bind, ret.
  destruct (mapIndex renderStar 0 100 r) as [ss r1]. cbn [fst snd].
  destruct (mapIndex renderDot 0 20 r1) as [ds r2].
  cbn. repeat split.
Qed.

(** C1, as the component behaves.  Every call of the component draws its
    particle fields afresh from the page's generator: 100 stars and 20
    dots, made from the 600 draws the call consumes and from nothing
    else.  Two calls, with any two progress values, return the same
    particle fields when they meet the same 600 draws; the progress
    determines only the opacity of the layers. *)
Theorem C1_particles_follow_the_draws (p1 p2 : Q) (r1 r2 : Rng) :
  (forall j, (j < 600)%nat -> r1 j = r2 j) ->
  let v1 := fst (ParallaxScene p1 r1) in
  let v2 := fst (ParallaxScene p2 r2) in
  particles v1 = particles v2
  /\ List.length (stars v1) = 100%nat /\ List.length (dots v1) = 20%nat
  /\ (forall n, snd (ParallaxScene p1 r1) n = r1 (600 + n)%nat)
  /\ stars_opacity v1 = starsOpacity p1
  /\ futuristic_opacity v1 = futuristicElementsOpacity p1.
Proof.
  intros H v1 v2. subst v1 v2. unfold particles.
  destruct (view_particles p1 r1) as (Es1 & Ed1 & Er1).
  destruct (view_particles p2 r2) as (Es2 & Ed2 & _).
  destruct (view_fields p1 r1) as (_ & _ & Eso & Efo & _).
  destruct (reads_mapIndex 5 renderStar reads_renderStar 100 0%nat) as [Hs1 Hs2].
  destruct (reads_mapIndex 5 renderDot reads_renderDot 20 0%nat) as [Hd1 Hd2].
  split; [|split; [|split; [|split; [|split]]]].
  - f_equal.
    + rewrite Es1, Es2. apply Hs1. intros j Hj. apply H. lia.
    + rewrite Ed1, Ed2. apply Hd1. intros j Hj. rewrite !Hs2. apply H. lia.
  - rewrite Es1. apply mapIndex_length.
  - rewrite Ed1. apply mapIndex_length.
  - intro n. rewrite Er1, Hd2, Hs2. f_equal.
  - exact Eso.
  - exact Efo.
Qed.

Lemma C1_particles_follow_the_draws_witness :
  let v1 := fst (ParallaxScene 0 cyclingRng) in
  let v2 := fst (ParallaxScene 0.5 cyclingRng) in
  particles v1 = particles v2
  /\ List.length (stars v1) = 100%nat /\ List.length (dots v1) = 20%nat
  /\ (forall n, snd (ParallaxScene 0 cyclingRng) n = cyclingRng (600 + n)%nat)
  /\ stars_opacity v1 = starsOpacity 0
  /\ futuristic_opacity v1 = futuristicElementsOpacity 0.
Proof.
  apply (C1_particles_follow_the_draws 0 0.5 cyclingRng cyclingRng).
  intros j _. reflexivity.
Defined.

(** C1, as stated, fails: after a scroll from progress 0 to progress 0.5
    the second render of the same mounted component has other stars and
    other dots than the first (the first star has moved from x = 0 to
    x = 60000/997). *)
Lemma C1_particle_field_regenerated :
  let vs := fst (renderTwice 0 0.5 cyclingRng) in
  stars (fst vs) <> stars (snd vs)
  /\ dots (fst vs) <> dots (snd vs)
  /\ map star_x (firstn 1 (stars (fst vs))) = [0 # 997]
  /\ map star_x (firstn 1 (stars (snd vs))) = [60000 # 997]
  /\ ~ (0 # 997 == 60000 # 997).
Proof.
  vm_compute. repeat split; try discriminate.
Qed.
End SceneProperties.

(** * Properties of the chat store *)

Section ChatProperties.
Import JSString Chat.
Open Scope Z_scope.
Open Scope string_scope.
Open Scope list_scope.

Lemma truthy_true_iff (s : string) : truthy s = true <-> s <> "".
Proof. destruct s; cbn; split; congruence. Qed.

Lemma truthy_false_iff (s : string) : truthy s = false <-> s = "".
Proof. destruct s; cbn; split; congruence. Qed.

(** The chain of conditionals is the ordered first-match policy. *)
Lemma mockResponse_firstMatch (t : string) :
  mockResponse t = firstMatch keywordRules defaultResponse (toLowerCase t).
Proof.
  unfold mockResponse, keywordRules. cbn [firstMatch existsb].
  rewrite !orb_false_r. reflexivity.
Qed.

Lemma sendMessage_blank (t : string) (now ts : Z) (w : Runtime) :
  trim t = "" -> sendMessage t now ts w = (w, inr tt).
Proof.
  intro H. unfold sendMessage. rewrite H. reflexivity.
Qed.

Lemma sendMessage_nonblank (t : string) (now ts : Z) (w : Runtime) :
  trim t <> "" ->
  sendMessage t now ts w =
    ({| chat := {| messages := messages (chat w)
                     ++ [{| id := now; text := t; sender := "user";
                            timestamp := ts |}];
                   isOpen := isOpen (chat w);
                   isLoading := true |};
        console := console w;
        waiting := waiting w ++ [{| susp_text := t; susp_delay := 1000 |}] |},
     inr tt).
Proof.
  intro H. apply truthy_true_iff in H.
  unfold sendMessage. rewrite H. reflexivity.
Qed.

(** C7. When the trimmed text is empty (as for the empty text and for
    three spaces), [sendMessage] returns at once: the transcript, the
    loading flag and everything else are as before, and nothing waits for
    a timer. *)
Theorem C7_blank_submit_is_noop (t : string) (now ts : Z) (w : Runtime) :
  trim t = "" ->
  dispatch (CallSendMessage t now ts) w = Some (w, inr tt)
  /\ messages (chat (fst (sendMessage t now ts w))) = messages (chat w)
  /\ isLoading (chat (fst (sendMessage t now ts w))) = isLoading (chat w)
  /\ trim "" = "" /\ trim "   " = "".
Proof.
  intro H. cbn [dispatch]. rewrite (sendMessage_blank t now ts w H).
  repeat split.
Qed.

Lemma C7_blank_submit_is_noop_witness :
  trim "   " = ""
  /\ dispatch (CallSendMessage "   " 1700000000000 1700000000000) (mount 0)
     = Some (mount 0, inr tt).
Proof.
  assert (H : trim "   " = "") by reflexivity.
  split; [exact H|].
  exact (proj1 (C7_blank_submit_is_noop "   " 1700000000000 1700000000000
                  (mount 0) H)).
Defined.

(** C6. For a text whose trim is not empty, [sendMessage] at once appends
    one user message and sets [isLoading], and parks behind a timer of
    1000 ms; when that timer fires, it appends one bot message whose text
    is chosen from the lowercased input by the ordered rules (hello/hi,
    then japan/japanese, then waterfall/water, then future/technology,
    else the default), and clears [isLoading].  "Hello there" gets the
    greeting; "Tell me about Japan" gets the Japan response, which is
    neither the greeting nor the default. *)
Theorem C6_submit_contract (t : string) (now ts now' ts' : Z) (w : Runtime) :
  trim t <> "" ->
  exists w1,
    dispatch (CallSendMessage t now ts) w = Some (w1, inr tt)
    /\ messages (chat w1)
       = messages (chat w)
         ++ [{| id := now; text := t; sender := "user"; timestamp := ts |}]
    /\ isLoading (chat w1) = true
    /\ waiting w1 = waiting w ++ [{| susp_text := t; susp_delay := 1000 |}]
    /\ (forall w' rest,
          waiting w' = {| susp_text := t; susp_delay := 1000 |} :: rest ->
          exists w2,
            dispatch (TimerFires Resolved now' ts') w' = Some (w2, inr tt)
            /\ messages (chat w2)
               = messages (chat w')
                 ++ [{| id := now' + 1;
                        text := firstMatch keywordRules defaultResponse
                                  (toLowerCase t);
                        sender := "bot"; timestamp := ts' |}]
            /\ isLoading (chat w2) = false
            /\ waiting w2 = rest)
    /\ mockResponse "Hello there" = helloResponse
    /\ mockResponse "Tell me about Japan" = japanResponse
    /\ japanResponse <> helloResponse
    /\ japanResponse <> defaultResponse.
Proof.
  intro H. eexists. cbn [dispatch].
  rewrite (sendMessage_nonblank t now ts w H).
  split; [reflexivity|]. cbn [chat messages isLoading waiting].
  split; [reflexivity|]. split; [reflexivity|]. split; [reflexivity|].
  split.
  - intros w' rest Hw. eexists. cbn [dispatch]. rewrite Hw.
    cbn [susp_text]. rewrite <- mockResponse_firstMatch.
    unfold sendMessage_resumed, try_catch_finally, seq, awaited, pure,
      setMessages, setIsLoading.
    cbn. repeat split.
  - repeat split; try reflexivity; discriminate.
Qed.

Lemma C6_submit_contract_witness :
  trim "Hello there" <> ""
  /\ exists w1 w2,
       dispatch (CallSendMessage "Hello there" 1700000000000 1700000000000)
         (mount 0) = Some (w1, inr tt)
       /\ isLoading (chat w1) = true
       /\ dispatch (TimerFires Resolved 1700000001000 1700000001000) w1
          = Some (w2, inr tt)
       /\ map text (messages (chat w2))
          = [greetingText; "Hello there"; helloResponse]
       /\ isLoading (chat w2) = false.
Proof.
  assert (H : trim "Hello there" <> "") by (vm_compute; discriminate).
  split; [exact H|].
  destruct (C6_submit_contract "Hello there" 1700000000000 1700000000000
              1700000001000 1700000001000 (mount 0) H)
    as (w1 & Hd & Hm & Hl & Hw & Hres & _).
  destruct (Hres w1 [] Hw) as (w2 & Hd2 & Hm2 & Hl2 & _).
  exists w1, w2.
  split; [exact Hd|]. split; [exact Hl|]. split; [exact Hd2|].
  split; [|exact Hl2].
  rewrite Hm2, Hm. reflexivity.
Defined.

Lemma sendMessage_returns (t : string) (now ts : Z) (w : Runtime) :
  snd (sendMessage t now ts w) = inr tt.
Proof.
  destruct (truthy (trim t)) eqn:E.
  - apply truthy_true_iff in E. rewrite (sendMessage_nonblank t now ts w E).
    reflexivity.
  - apply truthy_false_iff in E. rewrite (sendMessage_blank t now ts w E).
    reflexivity.
Qed.

Lemma sendMessage_resumed_eq (t : string) (settled : Settled) (now ts : Z)
    (w : Runtime) :
  sendMessage_resumed t settled now ts w =
    match settled with
    | Resolved =>
        ({| chat := {| messages := messages (chat w)
                         ++ [{| id := now + 1; text := mockResponse t;
                                sender := "bot"; timestamp := ts |}];
                       isOpen := isOpen (chat w);
                       isLoading := false |};
            console := console w;
            waiting := waiting w |}, inr tt)
    | Rejected _ =>
        ({| chat := {| messages := messages (chat w)
                         ++ [{| id := now + 1; text := apologyText;
                                sender := "bot"; timestamp := ts |}];
                       isOpen := isOpen (chat w);
                       isLoading := false |};
            console := console w ++ ["Error sending message:"];
            waiting := waiting w |}, inr tt)
    end.
Proof.
  destruct settled; reflexivity.
Qed.

(** C8. A [sendMessage] call that reached its delay completes without
    throwing and with [isLoading] false, whether the awaited step resolved
    or failed; when it failed, exactly one bot message with the fixed
    apology has been appended.  The part before the delay does not throw
    either. *)
Theorem C8_failure_recovery (w : Runtime) (s : Suspended)
    (rest : list Suspended) (settled : Settled) (now ts : Z) :
  waiting w = s :: rest ->
  (exists w2,
     dispatch (TimerFires settled now ts) w = Some (w2, inr tt)
     /\ isLoading (chat w2) = false
     /\ waiting w2 = rest
     /\ (forall e, settled = Rejected e ->
          messages (chat w2)
          = messages (chat w)
            ++ [{| id := now + 1; text := apologyText; sender := "bot";
                   timestamp := ts |}]))
  /\ (forall t now0 ts0 w0, snd (sendMessage t now0 ts0 w0) = inr tt).
Proof.
  intro Hw. split; [|exact sendMessage_returns].
  cbn [dispatch]. rewrite Hw. rewrite sendMessage_resumed_eq.
  destruct settled as [|e]; eexists; (split; [reflexivity|]); cbn;
    repeat split; intros; congruence.
Qed.

Lemma C8_failure_recovery_witness :
  exists w1 w2,
    dispatch (CallSendMessage "Where is the gate?" 1700000000000 1700000000000)
      (mount 0) = Some (w1, inr tt)
    /\ dispatch (TimerFires (Rejected (Error "timeout")) 1700000001000
                   1700000001000) w1 = Some (w2, inr tt)
    /\ isLoading (chat w2) = false
    /\ map text (messages (chat w2))
       = [greetingText; "Where is the gate?"; apologyText].
Proof.
  pose (w1 := fst (sendMessage "Where is the gate?" 1700000000000
                     1700000000000 (mount 0))).
  assert (Hw : waiting w1
               = {| susp_text := "Where is the gate?"; susp_delay := 1000 |}
                 :: []) by reflexivity.
  destruct (C8_failure_recovery w1 _ _ (Rejected (Error "timeout"))
              1700000001000 1700000001000 Hw)
    as [(w2 & Hd & Hl & _ & Hm) _].
  exists w1, w2.
  split; [reflexivity|]. split; [exact Hd|]. split; [exact Hl|].
  rewrite (Hm _ eq_refl). reflexivity.
Defined.

(** C9. After [clearChat], whatever the transcript was, the transcript is
    exactly the one greeting message from the bot (id 1, the canonical
    text), of length 1; [isOpen] is as before, and so are [isLoading] and
    the calls waiting for their timers. *)
Theorem C9_clearChat_resets (w : Runtime) (ts : Z) :
  exists w',
    dispatch (CallClearChat ts) w = Some (w', inr tt)
    /\ messages (chat w')
       = [{| id := 1;
             text := "Welcome to Neo Japan. How may I assist you today?";
             sender := "bot"; timestamp := ts |}]
    /\ List.length (messages (chat w')) = 1%nat
    /\ isOpen (chat w') = isOpen (chat w)
    /\ isLoading (chat w') = isLoading (chat w)
    /\ waiting w' = waiting w.
Proof.
  eexists. split; [reflexivity|]. cbn. repeat split.
Qed.

Lemma sorted_snoc (l : list Z) (x : Z) :
  StronglySorted Z.lt l -> Forall (fun y => y < x) l ->
  StronglySorted Z.lt (l ++ [x]).
Proof.
  induction 1 as [|a l Hs IH Ha]; intro Hx; cbn.
  - constructor; constructor.
  - inversion Hx as [|? ? Hax Hlx]; subst.
    constructor; [apply IH; exact Hlx|].
    apply Forall_app. split; [exact Ha|]. constructor; [exact Hax|constructor].
Qed.

Lemma sorted_NoDup (l : list Z) : StronglySorted Z.lt l -> NoDup l.
Proof.
  induction 1 as [|a l Hs IH Ha]; constructor; [|exact IH].
  intro Hin. rewrite Forall_forall in Ha. specialize (Ha a Hin). lia.
Qed.

(** Between resets the transcript only grows at its end, by at most one
    message per event. *)
Lemma dispatch_appends (ev : Event) (w w' : Runtime) (r : Exn + unit) :
  dispatch ev w = Some (w', r) ->
  (exists ts, ev = CallClearChat ts /\ messages (chat w') = initialMessages ts)
  \/ (exists tail, messages (chat w') = messages (chat w) ++ tail
                   /\ (List.length tail <= 1)%nat).
Proof.
  destruct ev as [t now ts|settled now ts| |ts]; cbn [dispatch]; intro H.
  - right. destruct (truthy (trim t)) eqn:E.
    + apply truthy_true_iff in E.
      rewrite (sendMessage_nonblank t now ts w E) in H.
      injection H as <- _. eexists. split; [reflexivity|]. cbn. lia.
    + apply truthy_false_iff in E.
      rewrite (sendMessage_blank t now ts w E) in H.
      injection H as <- _. exists []. rewrite app_nil_r. split; [reflexivity|].
      cbn. lia.
  - right. destruct (waiting w) as [|s rest]; [discriminate|].
    rewrite sendMessage_resumed_eq in H.
    destruct settled; injection H as <- _; eexists;
      (split; [reflexivity|]); cbn; lia.
  - right. injection H as <- _. exists []. cbn. rewrite app_nil_r.
    split; [reflexivity|]. lia.
  - left. exists ts. injection H as <- _. split; reflexivity.
Qed.

(** The ids of the transcript after one event: those before, followed by
    the id the event drew from the clock; or the single id 1 after a
    reset. *)
Lemma dispatch_ids (ev : Event) (w w' : Runtime) (r : Exn + unit) :
  dispatch ev w = Some (w', r) ->
  ids w' = match ev with
           | CallClearChat _ => [1]
           | _ => match drawnId ev with
                  | Some z => ids w ++ [z]
                  | None => ids w
                  end
           end.
Proof.
  unfold ids.
  destruct ev as [t now ts|settled now ts| |ts]; cbn [dispatch drawnId]; intro H.
  - destruct (truthy (trim t)) eqn:E.
    + apply truthy_true_iff in E.
      rewrite (sendMessage_nonblank t now ts w E) in H.
      injection H as <- _. cbn. rewrite map_app. reflexivity.
    + apply truthy_false_iff in E.
      rewrite (sendMessage_blank t now ts w E) in H.
      injection H as <- _. reflexivity.
  - destruct (waiting w) as [|s rest]; [discriminate|].
    rewrite sendMessage_resumed_eq in H.
    destruct settled; injection H as <- _; cbn; rewrite map_app; reflexivity.
  - injection H as <- _. reflexivity.
  - injection H as <- _. reflexivity.
Qed.

Lemma run_ids_sorted (evs : list Event) :
  forall (w w' : Runtime) (b : Z),
    1 <= b ->
    StronglySorted Z.lt (ids w) ->
    Forall (fun y => y <= b) (ids w) ->
    StronglySorted Z.lt (b :: drawnIds evs) ->
    run evs w = Some w' ->
    StronglySorted Z.lt (ids w').
Proof.
  induction evs as [|ev evs IH]; intros w w' b Hb Hs Hle Hd Hrun.
  - cbn in Hrun. injection Hrun as <-. exact Hs.
  - cbn [run] in Hrun.
    destruct (dispatch ev w) as [[w1 r]|] eqn:Ed; [|discriminate].
    pose proof (dispatch_ids ev w w1 r Ed) as Hids.
    cbn [drawnIds] in Hd.
    assert (Hclear : forall ts, ev = CallClearChat ts ->
              StronglySorted Z.lt (ids w')).
    { intros ts ->. cbn [drawnId] in Hd.
      apply (IH w1 w' b); try assumption.
      - rewrite Hids. repeat constructor.
      - rewrite Hids. repeat constructor. exact Hb. }
    assert (Hother : (forall ts, ev <> CallClearChat ts) ->
              StronglySorted Z.lt (ids w')).
    { intro Hne.
      assert (Hids' : ids w1 = match drawnId ev with
                               | Some z => ids w ++ [z]
                               | None => ids w
                               end).
      { destruct ev; try exact Hids. exfalso. eapply Hne. reflexivity. }
      destruct (drawnId ev) as [z|].
      - inversion Hd as [|? ? Hd' Hall]; subst.
        inversion Hall as [|? ? Hbz _]; subst.
        apply (IH w1 w' z); try assumption; try lia.
        + rewrite Hids'. apply sorted_snoc; [exact Hs|].
          eapply Forall_impl; [|exact Hle]. cbn. intros; lia.
        + rewrite Hids'. apply Forall_app. split.
          * eapply Forall_impl; [|exact Hle]. cbn. intros; lia.
          * repeat constructor. lia.
      - apply (IH w1 w' b); try assumption; rewrite Hids'; assumption. }
    destruct ev; try (apply Hother; intros; discriminate).
    eapply Hclear. reflexivity.
Qed.

(** C10, as the provider behaves.  Ids come from the clock: a user
    message takes the reading of [Date.now()], a bot message the reading
    plus one, the greeting is 1.  In a state reached by any interleaving
    of calls and timers in which every id drawn is above 1 and above the
    ids drawn before it, the ids of the transcript are strictly increasing
    in transcript order and pairwise distinct.  Every event leaves the
    transcript as it was with at most one message added at the end,
    except a reset, which leaves the single greeting. *)
Theorem C10_ids_increase_when_clock_does (ts0 : Z) (evs : list Event)
    (w : Runtime) :
  run evs (mount ts0) = Some w ->
  StronglySorted Z.lt (1 :: drawnIds evs) ->
  StronglySorted Z.lt (ids w)
  /\ NoDup (ids w)
  /\ (forall ev w0 w1 r,
        dispatch ev w0 = Some (w1, r) ->
        (exists ts, ev = CallClearChat ts
                    /\ messages (chat w1) = initialMessages ts)
        \/ (exists tail, messages (chat w1) = messages (chat w0) ++ tail
                         /\ (List.length tail <= 1)%nat)).
Proof.
  intros Hrun Hd.
  assert (Hs : StronglySorted Z.lt (ids w)).
  { apply (run_ids_sorted evs (mount ts0) w 1); try assumption; try lia.
    - repeat constructor.
    - repeat constructor. cbn. lia. }
  split; [exact Hs|]. split; [apply sorted_NoDup; exact Hs|].
  exact dispatch_appends.
Qed.

Lemma C10_ids_increase_when_clock_does_witness :
  let evs :=
    [ CallSendMessage "Hello" 1700000000000 1700000000000;
      CallSendMessage "Tell me about Japan" 1700000000400 1700000000400;
      TimerFires Resolved 1700000001001 1700000001001;
      CallClearChat 1700000001200;
      TimerFires Resolved 1700000001402 1700000001402;
      CallSendMessage "   " 1700000001402 1700000001402;
      CallToggleChat ] in
  exists w,
    run evs (mount 0) = Some w
    /\ ids w = [1; 1700000001403]
    /\ StronglySorted Z.lt (ids w)
    /\ NoDup (ids w).
Proof.
  intro evs.
  assert (Hex : exists w, run evs (mount 0) = Some w)
    by (eexists; vm_compute; reflexivity).
  destruct Hex as [w Hrun].
  assert (Hd : StronglySorted Z.lt (1 :: drawnIds evs)).
  { cbn. repeat (constructor; [|repeat (constructor; [lia|]); constructor]).
    constructor. }
  destruct (C10_ids_increase_when_clock_does 0 evs w Hrun Hd)
    as (Hs & Hn & _).
  exists w. split; [exact Hrun|]. split; [|split; [exact Hs | exact Hn]].
  vm_compute in Hrun. injection Hrun as <-. reflexivity.
Defined.

(** C10, as stated, fails: two [sendMessage] calls in the same
    millisecond put the same id twice into the transcript. *)
Lemma C10_same_millisecond_ids_collide :
  exists w,
    run [ CallSendMessage "Hello" 1700000000000 1700000000000;
          CallSendMessage "Tell me about Japan" 1700000000000 1700000000000 ]
        (mount 0) = Some w
    /\ ids w = [1; 1700000000000; 1700000000000]
    /\ ~ NoDup (ids w)
    /\ ~ StronglySorted Z.lt (ids w).
Proof.
  eexists. split; [reflexivity|]. split; [reflexivity|].
  assert (Hn : ~ NoDup [1; 1700000000000; 1700000000000]).
  { intro H. inversion H as [|? ? _ H1]; subst.
    inversion H1 as [|? ? Hin _]; subst. apply Hin. left. reflexivity. }
  split; [exact Hn|].
  intro Hs. apply Hn. apply sorted_NoDup. exact Hs.
Qed.
End ChatProperties.

(** * Further properties of the scene derivation *)

Section SceneExtras.
Import JS Scene SkySpec Ranges.
Open Scope Q_scope.

Lemma handleScroll_eq (w : ScrollSample) :
  handleScroll w
  = Math_min (Math_max (if gt (extentOf w) 0
                        then scrollTopOf w / extentOf w else 0) 0) 1.
Proof. reflexivity. Qed.

Lemma ratio_mul (a e : Q) : 0 < e -> (a / e) * e == a.
Proof. intro He. field. lra. Qed.

Lemma Math_min_cases (a b : Q) :
  (a < b /\ Math_min a b == a) \/ (b <= a /\ Math_min a b == b).
Proof. unfold Math_min. apply Q.min_spec. Qed.

Lemma Math_max_cases (a b : Q) :
  (a < b /\ Math_max a b == b) \/ (b <= a /\ Math_max a b == a).
Proof. unfold Math_max. apply Q.max_spec. Qed.

(** X1. With a positive scrollable extent the stored progress is the ratio
    of the offset to the extent while the offset is within the extent, 0
    for an offset at or above the top (negative, as on overscroll), and 1
    for an offset at or past the extent. *)
Theorem X1_handleScroll_positive_extent (w : ScrollSample) :
  0 < extentOf w ->
  (0 <= scrollTopOf w <= extentOf w ->
   handleScroll w == scrollTopOf w / extentOf w)
  /\ (scrollTopOf w <= 0 -> handleScroll w == 0)
  /\ (extentOf w <= scrollTopOf w -> handleScroll w == 1).
Proof.
  intro He. rewrite handleScroll_eq.
  assert (E : gt (extentOf w) 0 = true) by (apply lt_true_iff; exact He).
  rewrite E.
  pose proof (ratio_mul (scrollTopOf w) (extentOf w) He) as Hq.
  set (q := scrollTopOf w / extentOf w) in *.
  set (e := extentOf w) in *. set (t := scrollTopOf w) in *.
  destruct (Math_max_cases q 0) as [[Hq0 Hm]|[Hq0 Hm]];
  destruct (Math_min_cases (Math_max q 0) 1) as [[Hm1 Hn]|[Hm1 Hn]];
  rewrite Hn; clear Hn; repeat split; intros; try rewrite Hm in *; nra.
Qed.

Lemma X1_handleScroll_positive_extent_witness :
  let mid := {| pageYOffset := 300; docScrollTop := 300;
                docScrollHeight := 2000; innerHeight := 800 |} in
  let bounce := {| pageYOffset := -(40); docScrollTop := 0;
                   docScrollHeight := 2000; innerHeight := 800 |} in
  let past := {| pageYOffset := 1230; docScrollTop := 1230;
                 docScrollHeight := 2000; innerHeight := 800 |} in
  handleScroll mid == 0.25 /\ handleScroll bounce == 0 /\ handleScroll past == 1.
Proof.
  intros mid bounce past.
  assert (He : forall w, extentOf w == 1200 -> 0 < extentOf w)
    by (intros w ->; reflexivity).
  split; [|split].
  - rewrite (proj1 (X1_handleScroll_positive_extent mid (He mid eq_refl))).
    + reflexivity.
    + split; vm_compute; discriminate.
  - apply (X1_handleScroll_positive_extent bounce (He bounce eq_refl)).
    vm_compute; discriminate.
  - apply (X1_handleScroll_positive_extent past (He past eq_refl)).
    vm_compute; discriminate.
Defined.

Lemma handleScroll_range (w : ScrollSample) : 0 <= handleScroll w <= 1.
Proof.
  rewrite handleScroll_eq. split.
  - apply Math_min_glb; [apply Math_max_ge_r | lra].
  - apply Math_min_le_r.
Qed.

Lemma handleScroll_no_extent (w : ScrollSample) :
  extentOf w <= 0 -> handleScroll w == 0.
Proof.
  intro He. rewrite handleScroll_eq.
  assert (E : gt (extentOf w) 0 = false) by (apply lt_false_iff; exact He).
  rewrite E. reflexivity.
Qed.

(** X2. Between two samples of one page (the same scrollable extent), a
    larger scroll offset never gives a smaller progress. *)
Theorem X2_handleScroll_monotone (w1 w2 : ScrollSample) :
  extentOf w1 == extentOf w2 ->
  scrollTopOf w1 <= scrollTopOf w2 ->
  handleScroll w1 <= handleScroll w2.
Proof.
  intros He Ht.
  destruct (Qlt_le_dec 0 (extentOf w1)) as [Hpos|Hneg].
  - assert (Hpos2 : 0 < extentOf w2) by (rewrite <- He; exact Hpos).
    rewrite !handleScroll_eq.
    assert (E1 : gt (extentOf w1) 0 = true) by (apply lt_true_iff; exact Hpos).
    assert (E2 : gt (extentOf w2) 0 = true) by (apply lt_true_iff; exact Hpos2).
    rewrite E1, E2.
    pose proof (ratio_mul (scrollTopOf w1) (extentOf w1) Hpos) as Hq1.
    pose proof (ratio_mul (scrollTopOf w2) (extentOf w2) Hpos2) as Hq2.
    set (q1 := scrollTopOf w1 / extentOf w1) in *.
    set (q2 := scrollTopOf w2 / extentOf w2) in *.
    assert (Hq : q1 <= q2).
    { rewrite <- He in Hq2.
      destruct (Qlt_le_dec q2 q1) as [Hlt|Hle]; [exfalso; nra | exact Hle]. }
    destruct (Math_max_cases q1 0) as [[? Hm1]|[? Hm1]];
    destruct (Math_max_cases q2 0) as [[? Hm2]|[? Hm2]];
    destruct (Math_min_cases (Math_max q1 0) 1) as [[? Hn1]|[? Hn1]];
    destruct (Math_min_cases (Math_max q2 0) 1) as [[? Hn2]|[? Hn2]];
    rewrite Hn1, Hn2; try rewrite Hm1 in *; try rewrite Hm2 in *; lra.
  - rewrite (handleScroll_no_extent w1 Hneg).
    apply handleScroll_range.
Qed.

Lemma X2_handleScroll_monotone_witness :
  handleScroll {| pageYOffset := 300; docScrollTop := 300;
                  docScrollHeight := 2000; innerHeight := 800 |}
  <= handleScroll {| pageYOffset := 900; docScrollTop := 900;
                     docScrollHeight := 2000; innerHeight := 800 |}.
Proof.
  apply X2_handleScroll_monotone.
  - reflexivity.
  - vm_compute. discriminate.
Defined.

Lemma getSkyGradient_night (p : Q) :
  getSkyGradient p = gradientOf Night <-> 1 <= p.
Proof.
  rewrite getSkyGradient_phase. unfold phaseOf, firstBreakpoint, secondBreakpoint.
  destruct (Qlt_le_dec p 0.5); [|destruct (Qlt_le_dec p 1.0)];
    split; intro H; try discriminate; try reflexivity; lra.
Qed.

Lemma getSkyGradient_day (p : Q) :
  getSkyGradient p = gradientOf Day <-> p < 0.5.
Proof.
  rewrite getSkyGradient_phase. unfold phaseOf, firstBreakpoint, secondBreakpoint.
  destruct (Qlt_le_dec p 0.5); [|destruct (Qlt_le_dec p 1.0)];
    split; intro H; try discriminate; try reflexivity; lra.
Qed.

(** X3. Scroll handler and sky together: the night gradient is shown
    exactly when the page can scroll and the offset has reached the full
    extent; the day gradient exactly when the page cannot scroll or the
    offset is below half the extent; the dusk gradient in between. *)
Theorem X3_sky_follows_scroll (w : ScrollSample) :
  (getSkyGradient (handleScroll w) = gradientOf Night
   <-> 0 < extentOf w /\ extentOf w <= scrollTopOf w)
  /\ (getSkyGradient (handleScroll w) = gradientOf Day
      <-> extentOf w <= 0 \/ 2 * scrollTopOf w < extentOf w)
  /\ (getSkyGradient (handleScroll w) = gradientOf Dusk
      <-> 0 < extentOf w
          /\ extentOf w <= 2 * scrollTopOf w /\ scrollTopOf w < extentOf w).
Proof.
  assert (Hdusk : getSkyGradient (handleScroll w) = gradientOf Dusk
                  <-> 0.5 <= handleScroll w /\ handleScroll w < 1).
  { rewrite getSkyGradient_phase.
    unfold phaseOf, firstBreakpoint, secondBreakpoint.
    destruct (Qlt_le_dec (handleScroll w) 0.5);
      [|destruct (Qlt_le_dec (handleScroll w) 1.0)];
      split; intro H; try discriminate; try reflexivity; lra. }
  rewrite getSkyGradient_night, getSkyGradient_day, Hdusk.
  pose proof (handleScroll_range w) as [Hr0 Hr1].
  destruct (Qlt_le_dec 0 (extentOf w)) as [Hpos|Hneg].
  - pose proof (ratio_mul (scrollTopOf w) (extentOf w) Hpos) as Hq.
    revert Hr0 Hr1. rewrite handleScroll_eq.
    assert (E : gt (extentOf w) 0 = true) by (apply lt_true_iff; exact Hpos).
    rewrite E.
    set (q := scrollTopOf w / extentOf w) in *.
    set (e := extentOf w) in *. set (t := scrollTopOf w) in *.
    destruct (Math_max_cases q 0) as [[? Hm]|[? Hm]];
    destruct (Math_min_cases (Math_max q 0) 1) as [[? Hn]|[? Hn]];
    rewrite Hn; try rewrite Hm in *; intros Hr0 Hr1;
    repeat split; intros; try tauto;
    repeat match goal with
           | H : _ /\ _ |- _ => destruct H
           | H : _ \/ _ |- _ => destruct H
           end; try nra.
    all: right; nra.
  - rewrite (handleScroll_no_extent w Hneg).
    repeat split; intros;
    repeat match goal with
           | H : _ /\ _ |- _ => destruct H
           end; lra.
Qed.

Lemma Math_min_mono (a b c : Q) : a <= b -> Math_min a c <= Math_min b c.
Proof.
  intro H.
  destruct (Math_min_cases a c) as [[? Ha]|[? Ha]];
  destruct (Math_min_cases b c) as [[? Hb]|[? Hb]];
  rewrite Ha, Hb; lra.
Qed.

(** X4. Scrolling further never reverses a layer: with more progress the
    sky opacity and the moon's distance from the top do not grow, and the
    water scale, the tree, mountain and gate offsets, the overlay opacity
    and scale, and the moon and star opacities do not shrink. *)
Theorem X4_layers_monotone (p1 p2 : Q) :
  p1 <= p2 ->
  skyOpacity p2 <= skyOpacity p1
  /\ moonTop p2 <= moonTop p1
  /\ moonOpacity p1 <= moonOpacity p2
  /\ starsOpacity p1 <= starsOpacity p2
  /\ futuristicElementsOpacity p1 <= futuristicElementsOpacity p2
  /\ futuristicElementsScale p1 <= futuristicElementsScale p2
  /\ waterfallScale p1 <= waterfallScale p2
  /\ treesY p1 <= treesY p2
  /\ mountainFarY p1 <= mountainFarY p2
  /\ mountainMidY p1 <= mountainMidY p2
  /\ mountainCloseY p1 <= mountainCloseY p2.
Proof.
  intro H.
  unfold skyOpacity, moonTop, moonOpacity, starsOpacity,
    futuristicElementsOpacity, futuristicElementsScale, waterfallScale,
    treesY, mountainFarY, mountainMidY, mountainCloseY.
  repeat split; try lra; apply Math_min_mono; lra.
Qed.

Lemma X4_layers_monotone_witness :
  skyOpacity 0.75 <= skyOpacity 0.25
  /\ moonTop 0.75 <= moonTop 0.25
  /\ moonOpacity 0.25 <= moonOpacity 0.75
  /\ starsOpacity 0.25 <= starsOpacity 0.75.
Proof.
  assert (H : 0.25 <= 0.75) by (vm_compute; discriminate).
  destruct (X4_layers_monotone 0.25 0.75 H) as (H1 & H2 & H3 & H4 & _).
  repeat split; assumption.
Defined.






Lemma mapIndex_Forall_any {A} (f : nat -> Rand A) (P : A -> Prop) :
  (forall i r, P (fst (f i r))) ->
  forall n start r, Forall P (fst (mapIndex f start n r)).
Proof.
  intros HP. induction n as [|n IH]; intros start r.
  - constructor.
  - cbn [mapIndex]. unfold bind, ret.
    pose proof (HP start r) as Hhead.
    destruct (f start r) as [a t]. cbn [fst] in Hhead.
    specialize (IH (S start) t).
    destruct (mapIndex f (S start) n t) as [rest t']. cbn [fst] in *.
    constructor; assumption.
Qed.

Lemma mapIndex_keys {A} (f : nat -> Rand A) (key : A -> nat) :
  (forall i r, key (fst (f i r)) = i) ->
  forall n start r, map key (fst (mapIndex f start n r)) = List.seq start n.
Proof.
  intros Hk. induction n as [|n IH]; intros start r.
  - reflexivity.
  - cbn [mapIndex]. unfold bind, ret.
    pose proof (Hk start r) as Hhead.
    destruct (f start r) as [a t]. cbn [fst] in Hhead.
    specialize (IH (S start) t).
    destruct (mapIndex f (S start) n t) as [rest t']. cbn [fst] in *.
    cbn. rewrite Hhead, IH. reflexivity.
Qed.






(** X8. The keys of the rendered particles are their indices: 0 to 99 for
    the stars and 0 to 19 for the dots, each once and in order, whatever
    the generator holds. *)
Theorem X8_particle_keys (p : Q) (r : Rng) :
  map star_key (stars (fst (ParallaxScene p r))) = List.seq 0 100
  /\ map dot_key (dots (fst (ParallaxScene p r))) = List.seq 0 20
  /\ NoDup (map star_key (stars (fst (ParallaxScene p r))))
  /\ NoDup (map dot_key (dots (fst (ParallaxScene p r)))).
Proof.
  destruct (view_particles p r) as (Es & Ed & _). rewrite Es, Ed.
  assert (Hs : forall r0, map star_key (fst (mapIndex renderStar 0 100 r0))
                          = List.seq 0 100)
    by (intro r0; apply mapIndex_keys; intros; reflexivity).
  assert (Hd : forall r0, map dot_key (fst (mapIndex renderDot 0 20 r0))
                          = List.seq 0 20)
    by (intro r0; apply mapIndex_keys; intros; reflexivity).
  rewrite Hs, Hd.
  repeat split; apply seq_NoDup.
Qed.

Lemma renderDot_look (i : nat) (r : Rng) : dotLook (fst (renderDot i r)).
Proof.
  unfold dotLook, renderDot, bind, Math_random, ret. cbn.
  destruct (gt (r 3%nat) 0.5); [left | right]; split; reflexivity.
Qed.

(** X9. Every glowing dot is either blue with the blue glow or pink with
    the accent glow: colour and shadow come from one draw and never
    disagree.  A draw above 0.5 gives blue; a draw of exactly 0.5 or less
    gives pink. *)
Theorem X9_dot_colour_matches_shadow (p : Q) (r : Rng) :
  Forall dotLook (dots (fst (ParallaxScene p r)))
  /\ (forall i r0, 0.5 < r0 3%nat <->
        dot_color (fst (renderDot i r0)) = "bg-blue-400"%string).
Proof.
  split.
  - destruct (view_particles p r) as (_ & Ed & _). rewrite Ed.
    apply mapIndex_Forall_any. exact renderDot_look.
  - intros i r0.
    unfold renderDot, bind, Math_random, ret. cbn.
    destruct (gt (r0 3%nat) 0.5) eqn:E; unfold gt in E.
    + apply lt_true_iff in E. split; [reflexivity | intros _; exact E].
    + apply lt_false_iff in E. split; [intro; lra | discriminate].
Qed.





End SceneExtras.

(** * Further properties of the chat store and the chat form *)

Section ChatExtras.
Import JSString Chat ChatBot Transcript.
Open Scope Z_scope.
Open Scope string_scope.
Open Scope list_scope.

Lemma toggleChat_eq (w : Runtime) :
  toggleChat w =
    ({| chat := {| messages := messages (chat w);
                   isOpen := negb (isOpen (chat w));
                   isLoading := isLoading (chat w) |};
        console := console w; waiting := waiting w |}, inr tt).
Proof. reflexivity. Qed.

Lemma sameConversation_refl (w : Runtime) : sameConversation w w.
Proof. repeat split. Qed.

(** Events other than the toggle do not look at [isOpen], and keep it. *)
Lemma dispatch_sameConversation (ev : Event) (w1 w2 w1' : Runtime)
    (r : Exn + unit) :
  sameConversation w1 w2 ->
  dispatch ev w1 = Some (w1', r) ->
  exists w2',
    dispatch ev w2 = Some (w2', r)
    /\ sameConversation w1' w2'
    /\ isOpen (chat w2')
       = (if isToggle ev then negb (isOpen (chat w2)) else isOpen (chat w2)).
Proof.
  intros (Hm & Hl & Hc & Hw) H.
  destruct ev as [t now ts|settled now ts| |ts]; cbn [dispatch isToggle] in *.
  - destruct (truthy (trim t)) eqn:E.
    + apply truthy_true_iff in E.
      rewrite (sendMessage_nonblank t now ts w1 E) in H.
      rewrite (sendMessage_nonblank t now ts w2 E).
      injection H as <- <-. eexists. split; [reflexivity|].
      split; [|reflexivity]. unfold sameConversation. cbn.
      rewrite Hm, Hc, Hw. repeat split.
    + apply truthy_false_iff in E.
      rewrite (sendMessage_blank t now ts w1 E) in H.
      rewrite (sendMessage_blank t now ts w2 E).
      injection H as <- <-. eexists. split; [reflexivity|].
      split; [|reflexivity]. repeat split; assumption.
  - rewrite <- Hw. destruct (waiting w1) as [|s rest]; [discriminate|].
    rewrite sendMessage_resumed_eq in H. rewrite sendMessage_resumed_eq.
    destruct settled; injection H as <- <-; eexists;
      (split; [reflexivity|]); (split; [|reflexivity]);
      unfold sameConversation; cbn; rewrite Hm, Hc; repeat split.
  - rewrite toggleChat_eq in *. injection H as <- <-.
    eexists. split; [reflexivity|]. split; [|reflexivity].
    unfold sameConversation. cbn. repeat split; assumption.
  - injection H as <- <-. eexists. split; [reflexivity|].
    split; [|reflexivity]. unfold sameConversation. cbn.
    rewrite Hl, Hc, Hw. repeat split.
Qed.

Lemma run_without_toggles (evs : list Event) :
  forall w1 w2 w1',
    sameConversation w1 w2 ->
    run evs w1 = Some w1' ->
    exists w2',
      run (filter (fun ev => negb (isToggle ev)) evs) w2 = Some w2'
      /\ sameConversation w1' w2'
      /\ isOpen (chat w2') = isOpen (chat w2).
Proof.
  induction evs as [|ev evs IH]; intros w1 w2 w1' Hs Hrun.
  - cbn in *. injection Hrun as <-. exists w2. repeat split; apply Hs.
  - cbn [run] in Hrun.
    destruct (dispatch ev w1) as [[w1a r]|] eqn:Ed; [|discriminate].
    destruct (isToggle ev) eqn:Et.
    + cbn [filter]. rewrite Et. cbn [negb].
      apply (IH w1a w2 w1'); [|exact Hrun].
      destruct ev; try discriminate. cbn [dispatch] in Ed.
      rewrite toggleChat_eq in Ed. injection Ed as <- _.
      unfold sameConversation in *. cbn. exact Hs.
    + cbn [filter]. rewrite Et. cbn [negb run].
      destruct (dispatch_sameConversation ev w1 w2 w1a r Hs Ed)
        as (w2a & Ed2 & Hs2 & Ho).
      rewrite Ed2. rewrite Et in Ho.
      destruct (IH w1a w2a w1' Hs2 Hrun) as (w2' & Hr & Hs' & Ho').
      exists w2'. split; [exact Hr|]. split; [exact Hs'|]. congruence.
Qed.

Lemma run_isOpen (evs : list Event) :
  forall w w',
    run evs w = Some w' ->
    isOpen (chat w')
    = xorb (Nat.odd (List.length (filter isToggle evs))) (isOpen (chat w)).
Proof.
  induction evs as [|ev evs IH]; intros w w' Hrun.
  - cbn in *. injection Hrun as <-. reflexivity.
  - cbn [run] in Hrun.
    destruct (dispatch ev w) as [[w1 r]|] eqn:Ed; [|discriminate].
    destruct (dispatch_sameConversation ev w w w1 r (sameConversation_refl w) Ed)
      as (w1' & Ed' & _ & Ho).
    rewrite Ed in Ed'. injection Ed' as <-.
    rewrite (IH w1 w' Hrun), Ho. cbn [filter].
    destruct (isToggle ev); [|reflexivity].
    cbn [List.length]. rewrite Nat.odd_succ, <- Nat.negb_odd.
    destruct (Nat.odd _), (isOpen (chat w)); reflexivity.
Qed.

(** X10. Opening and closing the chat is independent of the conversation.
    After any run, [isOpen] is the initial value flipped once per
    [toggleChat] call (so two toggles cancel), and the same run with the
    toggles left out succeeds with the same transcript, loading flag,
    console and waiting calls: closing the window cancels nothing. *)
Theorem X10_toggle_independent (evs : list Event) (w w' : Runtime) :
  run evs w = Some w' ->
  isOpen (chat w')
  = xorb (Nat.odd (List.length (filter isToggle evs))) (isOpen (chat w))
  /\ exists w'',
       run (filter (fun ev => negb (isToggle ev)) evs) w = Some w''
       /\ sameConversation w' w''
       /\ isOpen (chat w'') = isOpen (chat w).
Proof.
  intro Hrun. split; [exact (run_isOpen evs w w' Hrun)|].
  exact (run_without_toggles evs w w w' (sameConversation_refl w) Hrun).
Qed.

Lemma X10_toggle_independent_witness :
  let evs :=
    [ CallToggleChat;
      CallSendMessage "Tell me about the waterfall" 1700000000000 1700000000000;
      CallToggleChat;
      TimerFires Resolved 1700000001000 1700000001000 ] in
  exists w' w'',
    run evs (mount 0) = Some w'
    /\ isOpen (chat w') = false
    /\ run (filter (fun ev => negb (isToggle ev)) evs) (mount 0) = Some w''
    /\ sameConversation w' w''.
Proof.
  intro evs.
  assert (Hex : exists w', run evs (mount 0) = Some w')
    by (eexists; vm_compute; reflexivity).
  destruct Hex as [w' Hrun].
  destruct (X10_toggle_independent evs (mount 0) w' Hrun)
    as (Ho & w'' & Hr & Hs & _).
  exists w', w''. repeat split; try assumption; apply Hs.
Defined.

Lemma mockResponse_botTexts (t : string) : In (mockResponse t) botTexts.
Proof.
  unfold mockResponse, botTexts.
  repeat match goal with
         | |- context [if ?b then _ else _] => destruct b
         end; cbn; tauto.
Qed.

(** What holds of a runtime however it was reached. *)
Lemma dispatch_keeps_shape (ev : Event) (w w' : Runtime) (r : Exn + unit) :
  dispatch ev w = Some (w', r) ->
  (exists g rest, messages (chat w) = g :: rest /\ isGreeting g) ->
  Forall wellFormed (messages (chat w)) ->
  (isLoading (chat w) = true -> waiting w <> []) ->
  Forall wellParked (waiting w) ->
  (exists g rest, messages (chat w') = g :: rest /\ isGreeting g)
  /\ Forall wellFormed (messages (chat w'))
  /\ (isLoading (chat w') = true -> waiting w' <> [])
  /\ Forall wellParked (waiting w').
Proof.
  intros H (g & rest & Hg & Hgreet) Hwf Hload Hpark.
  destruct ev as [t now ts|settled now ts| |ts]; cbn [dispatch] in H.
  - destruct (truthy (trim t)) eqn:E.
    + apply truthy_true_iff in E.
      rewrite (sendMessage_nonblank t now ts w E) in H.
      injection H as <- _. cbn [chat messages isLoading waiting].
      split; [|split; [|split]].
      * rewrite Hg. eexists _, _. split; [reflexivity | exact Hgreet].
      * apply Forall_app. split; [exact Hwf|].
        constructor; [|constructor]. left. split; [reflexivity | exact E].
      * intros _ Hnil. apply app_eq_nil in Hnil. destruct Hnil; discriminate.
      * apply Forall_app. split; [exact Hpark|].
        constructor; [|constructor]. split; [reflexivity | exact E].
    + apply truthy_false_iff in E.
      rewrite (sendMessage_blank t now ts w E) in H.
      injection H as <- _. repeat split; try assumption.
      eexists _, _. split; [exact Hg | exact Hgreet].
  - destruct (waiting w) as [|s rest'] eqn:Ew; [discriminate|].
    rewrite sendMessage_resumed_eq in H.
    inversion Hpark as [|? ? _ Hrest]; subst.
    assert (Hbot : forall x ts0, In x botTexts ->
              Forall wellFormed
                (messages (chat w)
                 ++ [{| id := now + 1; text := x; sender := "bot";
                        timestamp := ts0 |}])).
    { intros x ts0 Hx. apply Forall_app. split; [exact Hwf|].
      constructor; [|constructor]. right. split; [reflexivity | exact Hx]. }
    destruct settled; injection H as <- _;
      cbn [chat messages isLoading waiting];
      (split; [|split; [|split]]);
      try (rewrite Hg; eexists _, _; split; [reflexivity | exact Hgreet]);
      try discriminate; try exact Hrest;
      apply Hbot; [apply mockResponse_botTexts | cbn; tauto].
  - rewrite toggleChat_eq in H. injection H as <- _. cbn.
    repeat split; try assumption.
    eexists _, _. split; [exact Hg | exact Hgreet].
  - injection H as <- _. cbn. repeat split; try assumption.
    + eexists _, _. split; [reflexivity|]. repeat split.
    + constructor; [|constructor]. right. split; [reflexivity|]. cbn. tauto.
Qed.

Lemma run_keeps_shape (evs : list Event) :
  forall w w',
    run evs w = Some w' ->
    (exists g rest, messages (chat w) = g :: rest /\ isGreeting g) ->
    Forall wellFormed (messages (chat w)) ->
    (isLoading (chat w) = true -> waiting w <> []) ->
    Forall wellParked (waiting w) ->
    (exists g rest, messages (chat w') = g :: rest /\ isGreeting g)
    /\ Forall wellFormed (messages (chat w'))
    /\ (isLoading (chat w') = true -> waiting w' <> [])
    /\ Forall wellParked (waiting w').
Proof.
  induction evs as [|ev evs IH]; intros w w' Hrun Hg Hwf Hl Hp.
  - cbn in Hrun. injection Hrun as <-. repeat split; assumption.
  - cbn [run] in Hrun.
    destruct (dispatch ev w) as [[w1 r]|] eqn:Ed; [|discriminate].
    destruct (dispatch_keeps_shape ev w w1 r Ed Hg Hwf Hl Hp)
      as (Hg1 & Hwf1 & Hl1 & Hp1).
    exact (IH w1 w' Hrun Hg1 Hwf1 Hl1 Hp1).
Qed.

Lemma mount_shape (ts0 : Z) :
  (exists g rest, messages (chat (mount ts0)) = g :: rest /\ isGreeting g)
  /\ Forall wellFormed (messages (chat (mount ts0)))
  /\ (isLoading (chat (mount ts0)) = true -> waiting (mount ts0) <> [])
  /\ Forall wellParked (waiting (mount ts0)).
Proof.
  cbn. repeat split.
  - eexists _, _. split; [reflexivity|]. repeat split.
  - constructor; [|constructor]. right. split; [reflexivity|]. cbn. tauto.
  - discriminate.
  - constructor.
Qed.

(** X11. In every state the provider can reach, by any calls, timers,
    toggles and resets, the transcript is not empty and begins with the
    greeting (id 1, from the bot); every message is from "user" or "bot";
    no user message is blank; and every bot message carries one of the
    seven fixed texts (greeting, four keyword responses, default,
    apology). *)
Theorem X11_transcript_shape (ts0 : Z) (evs : list Event) (w : Runtime) :
  run evs (mount ts0) = Some w ->
  (exists g rest, messages (chat w) = g :: rest /\ isGreeting g)
  /\ Forall wellFormed (messages (chat w)).
Proof.
  intro Hrun.
  destruct (mount_shape ts0) as (Hg & Hwf & Hl & Hp).
  destruct (run_keeps_shape evs (mount ts0) w Hrun Hg Hwf Hl Hp)
    as (Hg' & Hwf' & _).
  split; assumption.
Qed.

Lemma X11_transcript_shape_witness :
  let evs :=
    [ CallSendMessage "Is this the future?" 1700000000000 1700000000000;
      CallClearChat 1700000000500;
      TimerFires (Rejected (Error "offline")) 1700000001000 1700000001000 ] in
  exists w,
    run evs (mount 0) = Some w
    /\ (exists g rest, messages (chat w) = g :: rest /\ isGreeting g)
    /\ Forall wellFormed (messages (chat w)).
Proof.
  intro evs.
  assert (Hex : exists w, run evs (mount 0) = Some w)
    by (eexists; vm_compute; reflexivity).
  destruct Hex as [w Hrun].
  exists w. split; [exact Hrun|].
  exact (X11_transcript_shape 0 evs w Hrun).
Defined.

(** X12. In every reachable state, a set loading flag has a parked call
    behind it: [isLoading] is never true with no timer left to clear it.
    Every parked call waits on a 1000 ms timer and closed over a text that
    is not blank. *)
Theorem X12_loading_has_timer (ts0 : Z) (evs : list Event) (w : Runtime) :
  run evs (mount ts0) = Some w ->
  (isLoading (chat w) = true -> waiting w <> [])
  /\ Forall wellParked (waiting w).
Proof.
  intro Hrun.
  destruct (mount_shape ts0) as (Hg & Hwf & Hl & Hp).
  destruct (run_keeps_shape evs (mount ts0) w Hrun Hg Hwf Hl Hp)
    as (_ & _ & Hl' & Hp').
  split; assumption.
Qed.

Lemma X12_loading_has_timer_witness :
  let evs :=
    [ CallSendMessage "Hello" 1700000000000 1700000000000;
      CallSendMessage "And the mountains?" 1700000000300 1700000000300;
      CallClearChat 1700000000500 ] in
  exists w,
    run evs (mount 0) = Some w
    /\ isLoading (chat w) = true
    /\ waiting w <> []
    /\ Forall wellParked (waiting w).
Proof.
  intro evs.
  assert (Hex : exists w, run evs (mount 0) = Some w)
    by (eexists; vm_compute; reflexivity).
  destruct Hex as [w Hrun].
  destruct (X12_loading_has_timer 0 evs w Hrun) as [Hl Hp].
  assert (Hload : isLoading (chat w) = true).
  { pose proof Hrun as Hc. vm_compute in Hc. injection Hc as <-. reflexivity. }
  exists w. split; [exact Hrun|]. split; [exact Hload|].
  split; [exact (Hl Hload) | exact Hp].
Defined.

(** X13. The loading flag belongs to no call in particular: when two or
    more calls are parked and the first timer fires, [isLoading] becomes
    false although a call is still waiting for its reply. *)
Theorem X13_flag_cleared_by_first_reply (w : Runtime) (s1 s2 : Suspended)
    (rest : list Suspended) (settled : Settled) (now ts : Z) :
  waiting w = s1 :: s2 :: rest ->
  exists w',
    dispatch (TimerFires settled now ts) w = Some (w', inr tt)
    /\ isLoading (chat w') = false
    /\ waiting w' = s2 :: rest.
Proof.
  intro Hw. cbn [dispatch]. rewrite Hw. rewrite sendMessage_resumed_eq.
  destruct settled; eexists; repeat split.
Qed.

Lemma X13_flag_cleared_by_first_reply_witness :
  exists w w',
    run [ CallSendMessage "Hello" 1700000000000 1700000000000;
          CallSendMessage "And the mountains?" 1700000000300 1700000000300 ]
        (mount 0) = Some w
    /\ dispatch (TimerFires Resolved 1700000001000 1700000001000) w
       = Some (w', inr tt)
    /\ isLoading (chat w') = false
    /\ waiting w' = [{| susp_text := "And the mountains?"; susp_delay := 1000 |}].
Proof.
  eexists.
  assert (Hw : waiting
                 (fst (sendMessage "And the mountains?" 1700000000300
                         1700000000300
                         (fst (sendMessage "Hello" 1700000000000 1700000000000
                                 (mount 0)))))
               = {| susp_text := "Hello"; susp_delay := 1000 |}
                 :: {| susp_text := "And the mountains?"; susp_delay := 1000 |}
                 :: []) by reflexivity.
  destruct (X13_flag_cleared_by_first_reply _ _ _ _ Resolved 1700000001000
              1700000001000 Hw) as (w' & Hd & Hl & Hw').
  exists w'. split; [reflexivity|]. split; [exact Hd|].
  split; [exact Hl | exact Hw'].
Defined.

(** The questions of a transcript are its user texts; the replies are its
    bot messages after the greeting.  At any time the questions are those
    already answered, in order, followed by those of the parked calls. *)
Lemma dispatch_keeps_order (ev : Event) (w w' : Runtime) (r : Exn + unit)
    (first : Message) (ms : list Message) (qs : list string) :
  isClear ev = false ->
  dispatch ev w = Some (w', r) ->
  messages (chat w) = first :: ms ->
  map text (filter isUser ms) = qs ++ map susp_text (waiting w) ->
  Forall2 answers qs (filter isBot ms) ->
  exists ms' qs',
    messages (chat w') = first :: ms'
    /\ map text (filter isUser ms') = qs' ++ map susp_text (waiting w')
    /\ Forall2 answers qs' (filter isBot ms').
Proof.
  intros Hc H Hm Hq Ha.
  destruct ev as [t now ts|settled now ts| |ts]; cbn [dispatch] in H;
    try discriminate.
  - destruct (truthy (trim t)) eqn:E.
    + apply truthy_true_iff in E.
      rewrite (sendMessage_nonblank t now ts w E) in H.
      injection H as <- _. cbn [chat messages waiting].
      rewrite Hm. eexists _, qs. split; [reflexivity|].
      rewrite !filter_app, !map_app. cbn. rewrite Hq, app_nil_r.
      split; [rewrite app_assoc; reflexivity | exact Ha].
    + apply truthy_false_iff in E.
      rewrite (sendMessage_blank t now ts w E) in H.
      injection H as <- _. exists ms, qs. repeat split; assumption.
  - destruct (waiting w) as [|s rest'] eqn:Ew; [discriminate|].
    rewrite sendMessage_resumed_eq in H. cbn [map] in Hq.
    destruct settled; injection H as <- _; cbn [chat messages waiting];
      rewrite Hm; eexists _, (qs ++ [susp_text s]);
      (split; [reflexivity|]);
      rewrite !filter_app, !map_app; cbn; rewrite Hq, !app_nil_r;
      (split; [rewrite <- app_assoc; reflexivity|]);
      (apply Forall2_app; [exact Ha|]);
      (constructor; [|constructor]); [left | right]; reflexivity.
  - rewrite toggleChat_eq in H. injection H as <- _. cbn.
    exists ms, qs. repeat split; assumption.
Qed.

Lemma run_keeps_order (evs : list Event) :
  forall (w w' : Runtime) (first : Message) (ms : list Message)
         (qs : list string),
    forallb (fun ev => negb (isClear ev)) evs = true ->
    run evs w = Some w' ->
    messages (chat w) = first :: ms ->
    map text (filter isUser ms) = qs ++ map susp_text (waiting w) ->
    Forall2 answers qs (filter isBot ms) ->
    exists ms' qs',
      messages (chat w') = first :: ms'
      /\ map text (filter isUser ms') = qs' ++ map susp_text (waiting w')
      /\ Forall2 answers qs' (filter isBot ms').
Proof.
  induction evs as [|ev evs IH]; intros w w' first ms qs Hc Hrun Hm Hq Ha.
  - cbn in Hrun. injection Hrun as <-. exists ms, qs. repeat split; assumption.
  - cbn [run] in Hrun. cbn [forallb] in Hc.
    apply andb_true_iff in Hc. destruct Hc as [Hc1 Hc2].
    apply negb_true_iff in Hc1.
    destruct (dispatch ev w) as [[w1 r]|] eqn:Ed; [|discriminate].
    destruct (dispatch_keeps_order ev w w1 r first ms qs Hc1 Ed Hm Hq Ha)
      as (ms1 & qs1 & Hm1 & Hq1 & Ha1).
    exact (IH w1 w' first ms1 qs1 Hc2 Hrun Hm1 Hq1 Ha1).
Qed.

(** X14. Replies come in the order of submission.  In a run without
    resets, however calls and timers interleave, the transcript is the
    greeting followed by user and bot messages such that the user texts
    are the answered questions followed by the texts of the calls still
    parked, and the bot messages answer the answered questions one by one
    in the same order (each the mock response to its question, or the
    apology).  So the number of user messages is the number of replies plus
    the number of parked calls. *)
Theorem X14_replies_in_submission_order (ts0 : Z) (evs : list Event)
    (w : Runtime) :
  forallb (fun ev => negb (isClear ev)) evs = true ->
  run evs (mount ts0) = Some w ->
  exists ms answered,
    messages (chat w) = initialMessages ts0 ++ ms
    /\ map text (filter isUser ms) = answered ++ map susp_text (waiting w)
    /\ Forall2 answers answered (filter isBot ms)
    /\ List.length (filter isUser ms)
       = (List.length (filter isBot ms) + List.length (waiting w))%nat.
Proof.
  intros Hc Hrun.
  destruct (run_keeps_order evs (mount ts0) w _ [] [] Hc Hrun eq_refl eq_refl
              (Forall2_nil _))
    as (ms & qs & Hm & Hq & Ha).
  exists ms, qs. split; [exact Hm|]. split; [exact Hq|]. split; [exact Ha|].
  apply Forall2_length in Ha.
  rewrite <- Ha, <- (length_map susp_text), <- length_app, <- Hq.
  rewrite length_map. reflexivity.
Qed.

Lemma X14_replies_in_submission_order_witness :
  let evs :=
    [ CallSendMessage "Hello" 1700000000000 1700000000000;
      CallSendMessage "Tell me about Japan" 1700000000300 1700000000300;
      TimerFires Resolved 1700000001000 1700000001000;
      CallSendMessage "What about the water?" 1700000001100 1700000001100;
      TimerFires (Rejected (Error "offline")) 1700000001300 1700000001300 ] in
  exists w ms answered,
    run evs (mount 0) = Some w
    /\ messages (chat w) = initialMessages 0 ++ ms
    /\ map text (filter isUser ms) = answered ++ map susp_text (waiting w)
    /\ Forall2 answers answered (filter isBot ms).
Proof.
  intro evs.
  assert (Hex : exists w, run evs (mount 0) = Some w)
    by (eexists; vm_compute; reflexivity).
  destruct Hex as [w Hrun].
  destruct (X14_replies_in_submission_order 0 evs w eq_refl Hrun)
    as (ms & qs & Hm & Hq & Ha & _).
  exists w, ms, qs. repeat split; assumption.
Defined.

(** X15. A reset does not cancel a parked call.  If [clearChat] runs while
    a call waits, the reply still arrives when its timer fires, and the
    transcript is then the fresh greeting followed by a reply to a question
    that is no longer there. *)
Theorem X15_reset_keeps_pending_reply (w : Runtime) (s : Suspended)
    (rest : list Suspended) (settled : Settled) (ts now ts' : Z) :
  waiting w = s :: rest ->
  exists w',
    run [CallClearChat ts; TimerFires settled now ts'] w = Some w'
    /\ messages (chat w')
       = initialMessages ts
         ++ [{| id := now + 1;
                text := match settled with
                        | Resolved => mockResponse (susp_text s)
                        | Rejected _ => apologyText
                        end;
                sender := "bot"; timestamp := ts' |}]
    /\ waiting w' = rest.
Proof.
  intro Hw. cbn [run dispatch]. unfold clearChat, setMessages.
  cbn [waiting]. rewrite Hw. rewrite sendMessage_resumed_eq.
  destruct settled; eexists; repeat split.
Qed.

Lemma X15_reset_keeps_pending_reply_witness :
  exists w',
    run [ CallSendMessage "Tell me about Japan" 1700000000000 1700000000000;
          CallClearChat 1700000000500;
          TimerFires Resolved 1700000001000 1700000001000 ] (mount 0)
    = Some w'
    /\ map text (messages (chat w')) = [greetingText; japanResponse].
Proof.
  pose (w := fst (sendMessage "Tell me about Japan" 1700000000000
                    1700000000000 (mount 0))).
  assert (Hw : waiting w
               = {| susp_text := "Tell me about Japan"; susp_delay := 1000 |}
                 :: []) by reflexivity.
  destruct (X15_reset_keeps_pending_reply w _ _ Resolved 1700000000500
              1700000001000 1700000001000 Hw) as (w' & Hrun & Hm & _).
  exists w'. split; [exact Hrun|]. rewrite Hm. reflexivity.
Defined.

Lemma trimEnd_blank (s : string) :
  trimEnd s = "" <-> allWhiteSpace s = true.
Proof.
  induction s as [|c s IH]; cbn; [tauto|].
  destruct (trimEnd s) eqn:E.
  - destruct (isWhiteSpace c); cbn; [tauto|].
    split; discriminate.
  - split; [discriminate|]. intro H. apply andb_true_iff in H.
    destruct H as [_ H]. apply IH in H. discriminate.
Qed.

Lemma allWhiteSpace_trimStart (s : string) :
  allWhiteSpace (trimStart s) = allWhiteSpace s.
Proof.
  induction s as [|c s IH]; cbn; [reflexivity|].
  destruct (isWhiteSpace c) eqn:E; cbn; [exact IH|].
  rewrite E. reflexivity.
Qed.

Lemma trim_blank (s : string) : trim s = "" <-> allWhiteSpace s = true.
Proof.
  unfold trim. rewrite trimEnd_blank, allWhiteSpace_trimStart. tauto.
Qed.

(** X16. [sendMessage] leaves the provider exactly as it was if and only
    if the text consists of white space only (tabs, line breaks, spaces,
    no-break spaces), the empty text included; any other text changes the
    state. *)
Theorem X16_ignored_iff_white_space (t : string) (now ts : Z) (w : Runtime) :
  sendMessage t now ts w = (w, inr tt) <-> allWhiteSpace t = true.
Proof.
  rewrite <- trim_blank. split.
  - intro H. destruct (truthy (trim t)) eqn:E.
    + exfalso. apply truthy_true_iff in E.
      rewrite (sendMessage_nonblank t now ts w E) in H.
      injection H as H. apply (f_equal (fun x => List.length (messages (chat x)))) in H.
      cbn in H. rewrite length_app in H. cbn in H. lia.
    + apply truthy_false_iff. exact E.
  - apply sendMessage_blank.
Qed.

Lemma prefix_app (a b s : string) :
  prefix (a ++ b) s = true -> prefix a s = true.
Proof.
  revert s. induction a as [|c a IH]; intros s H; [destruct s; reflexivity|].
  destruct s as [|d s]; cbn in *; [discriminate|].
  destruct (ascii_dec c d); [|discriminate]. apply IH. exact H.
Qed.

(** A text that includes a string includes each of its beginnings. *)
Lemma includes_app (s a b : string) :
  includes s (a ++ b) = true -> includes s a = true.
Proof.
  induction s as [|c s IH]; cbn [includes]; intro H.
  - destruct (prefix (a ++ b) "") eqn:E; [|discriminate].
    rewrite (prefix_app a b "" E). reflexivity.
  - destruct (prefix (a ++ b) (String c s)) eqn:E.
    + rewrite (prefix_app a b _ E). reflexivity.
    + rewrite (IH H). destruct (prefix a (String c s)); reflexivity.
Qed.

Lemma mockResponse_reduced (t : string) :
  mockResponse t =
    let l := toLowerCase t in
    if includes l "hello" || includes l "hi" then helloResponse
    else if includes l "japan" then japanResponse
    else if includes l "water" then waterResponse
    else if includes l "future" || includes l "technology" then futureResponse
    else defaultResponse.
Proof.
  unfold mockResponse. cbv zeta.
  pose proof (includes_app (toLowerCase t) "japan" "ese") as Hj.
  pose proof (includes_app (toLowerCase t) "water" "fall") as Hw.
  cbn [append] in Hj, Hw.
  destruct (includes (toLowerCase t) "japanese");
    [rewrite (Hj eq_refl) | rewrite orb_false_r];
  (destruct (includes (toLowerCase t) "waterfall");
    [rewrite (Hw eq_refl) | ]); reflexivity.
Qed.

(** X17. Which response a text gets, in terms of the keywords its
    lowercased form includes anywhere (inside other words too).  The
    greeting wins whenever "hello" or "hi" occurs, whatever else is
    mentioned; then "japan", then "water", then "future" or "technology";
    the default is given only when none of the six occurs.  The keywords
    "japanese" and "waterfall" of the source never decide anything. *)
Theorem X17_response_table (t : string) :
  let has := includes (toLowerCase t) in
  (mockResponse t = helloResponse <-> has "hello" || has "hi" = true)
  /\ (mockResponse t = japanResponse
      <-> has "hello" || has "hi" = false /\ has "japan" = true)
  /\ (mockResponse t = waterResponse
      <-> has "hello" || has "hi" = false /\ has "japan" = false
          /\ has "water" = true)
  /\ (mockResponse t = futureResponse
      <-> has "hello" || has "hi" = false /\ has "japan" = false
          /\ has "water" = false
          /\ has "future" || has "technology" = true)
  /\ (mockResponse t = defaultResponse
      <-> has "hello" || has "hi" = false /\ has "japan" = false
          /\ has "water" = false
          /\ has "future" || has "technology" = false).
Proof.
  intro has. rewrite mockResponse_reduced. cbv zeta. fold has.
  destruct (has "hello" || has "hi"), (has "japan"), (has "water"),
    (has "future" || has "technology");
    repeat split; intros;
    repeat match goal with H : _ /\ _ |- _ => destruct H end;
    try reflexivity; discriminate.
Qed.

Lemma X17_response_table_witness :
  mockResponse "This is about Japanese technology" = helloResponse
  /\ mockResponse "Show me a WATERFALL in Japan" = japanResponse
  /\ mockResponse "mountains?" = defaultResponse.
Proof.
  destruct (X17_response_table "This is about Japanese technology")
    as (H1 & _).
  destruct (X17_response_table "Show me a WATERFALL in Japan")
    as (_ & H2 & _).
  destruct (X17_response_table "mountains?") as (_ & _ & _ & _ & H5).
  split; [apply H1; reflexivity|].
  split; [apply H2; split; reflexivity|].
  apply H5. repeat split; reflexivity.
Defined.

(** X18. The form's submit handler.  With a text that is not blank it does
    what [sendMessage] does and empties the input; with a blank text it
    changes nothing and leaves the text in the input.  Either way a second
    submit straight after the first sends nothing: the same user text is
    never appended twice by submitting twice. *)
Theorem X18_handleSubmit_sends_once (input : string) (now ts now' ts' : Z)
    (w : Runtime) :
  exists w1 input1,
    handleSubmit input now ts w = (w1, inr input1)
    /\ w1 = fst (sendMessage input now ts w)
    /\ (trim input <> "" -> input1 = "")
    /\ (trim input = "" -> input1 = input /\ w1 = w)
    /\ handleSubmit input1 now' ts' w1 = (w1, inr input1).
Proof.
  unfold handleSubmit. destruct (truthy (trim input)) eqn:E.
  - apply truthy_true_iff in E. unfold seq, pure.
    rewrite (sendMessage_nonblank input now ts w E). cbn [fst].
    eexists _, _. split; [reflexivity|]. split; [reflexivity|].
    split; [reflexivity|]. split; [intro; contradiction|]. reflexivity.
  - unfold pure. exists w, input. rewrite E.
    apply truthy_false_iff in E.
    rewrite (sendMessage_blank input now ts w E).
    repeat split; intros; try reflexivity. contradiction.
Qed.

Lemma X18_handleSubmit_sends_once_witness :
  exists w1,
    handleSubmit "Hello there" 1700000000000 1700000000000 (mount 0)
    = (w1, inr "")
    /\ handleSubmit "" 1700000000001 1700000000001 w1 = (w1, inr "")
    /\ map text (messages (chat w1)) = [greetingText; "Hello there"].
Proof.
  destruct (X18_handleSubmit_sends_once "Hello there" 1700000000000
              1700000000000 1700000000001 1700000000001 (mount 0))
    as (w1 & i1 & H1 & Hw & Hn & _ & H2).
  assert (Hi : i1 = "") by (apply Hn; vm_compute; discriminate).
  subst i1. exists w1. split; [exact H1|]. split; [exact H2|].
  rewrite Hw. reflexivity.
Defined.

Lemma sendDisabled_false (t : string) (l : bool) :
  sendDisabled t l = false -> trim t <> "" /\ l = false.
Proof.
  unfold sendDisabled. intro H. apply orb_false_iff in H. destruct H as [H1 H2].
  apply negb_false_iff in H1. apply truthy_true_iff in H1. split; assumption.
Qed.

Lemma run_gated (evs : list Event) :
  forall w w',
    gated evs w ->
    run evs w = Some w' ->
    (isLoading (chat w) = true /\ (exists s, waiting w = [s])
     \/ isLoading (chat w) = false /\ waiting w = []) ->
    (isLoading (chat w') = true /\ (exists s, waiting w' = [s])
     \/ isLoading (chat w') = false /\ waiting w' = []).
Proof.
  induction evs as [|ev evs IH]; intros w w' Hg Hrun Hk.
  - cbn in Hrun. injection Hrun as <-. exact Hk.
  - cbn [run] in Hrun. cbn [gated] in Hg. destruct Hg as [Hgate Hg].
    destruct (dispatch ev w) as [[w1 r]|] eqn:Ed; [|discriminate].
    apply (IH w1 w' Hg Hrun). clear IH Hg Hrun.
    destruct ev as [t now ts|settled now ts| |ts]; cbn [dispatch] in Ed.
    + apply sendDisabled_false in Hgate. destruct Hgate as [Ht Hl].
      rewrite (sendMessage_nonblank t now ts w Ht) in Ed.
      injection Ed as <- _. cbn.
      destruct Hk as [[Hk _]|[_ Hk]]; [congruence|].
      left. rewrite Hk. split; [reflexivity|]. eexists. reflexivity.
    + destruct Hk as [[_ [s Hk]]|[_ Hk]]; rewrite Hk in Ed; [|discriminate].
      rewrite sendMessage_resumed_eq in Ed.
      destruct settled; injection Ed as <- _; cbn; right; split; reflexivity.
    + rewrite toggleChat_eq in Ed. injection Ed as <- _. exact Hk.
    + injection Ed as <- _. exact Hk.
Qed.

(** X19. What the form's gate buys.  In a run in which [sendMessage] is
    only called while the send button is enabled (text not blank, not
    loading), at most one call is ever parked, and [isLoading] is true
    exactly while one is: the typing indicator then shows precisely the
    outstanding reply. *)
Theorem X19_gated_runs_have_one_pending (ts0 : Z) (evs : list Event)
    (w : Runtime) :
  gated evs (mount ts0) ->
  run evs (mount ts0) = Some w ->
  (List.length (waiting w) <= 1)%nat
  /\ (isLoading (chat w) = true <-> waiting w <> []).
Proof.
  intros Hg Hrun.
  assert (Hk : isLoading (chat (mount ts0)) = true
               /\ (exists s, waiting (mount ts0) = [s])
               \/ isLoading (chat (mount ts0)) = false
                  /\ waiting (mount ts0) = [])
    by (right; split; reflexivity).
  destruct (run_gated evs (mount ts0) w Hg Hrun Hk) as [[Hl [s Hw]]|[Hl Hw]];
    rewrite Hl, Hw; cbn; split; try lia; split; intro; congruence.
Qed.

Lemma X19_gated_runs_have_one_pending_witness :
  let evs :=
    [ CallSendMessage "Hello" 1700000000000 1700000000000;
      CallToggleChat;
      TimerFires Resolved 1700000001000 1700000001000;
      CallSendMessage "Tell me about Japan" 1700000002000 1700000002000 ] in
  exists w,
    run evs (mount 0) = Some w
    /\ (List.length (waiting w) <= 1)%nat
    /\ (isLoading (chat w) = true <-> waiting w <> []).
Proof.
  intro evs.
  assert (Hex : exists w, run evs (mount 0) = Some w)
    by (eexists; vm_compute; reflexivity).
  destruct Hex as [w Hrun].
  assert (Hg : gated evs (mount 0)) by (vm_compute; tauto).
  exists w. split; [exact Hrun|].
  exact (X19_gated_runs_have_one_pending 0 evs w Hg Hrun).
Defined.

Lemma lowerChar_idempotent (c : ascii) : lowerChar (lowerChar c) = lowerChar c.
Proof.
  destruct c as [[] [] [] [] [] [] [] []]; reflexivity.
Qed.

Lemma toLowerCase_idempotent (s : string) :
  toLowerCase (toLowerCase s) = toLowerCase s.
Proof.
  induction s as [|c s IH]; cbn; [reflexivity|].
  rewrite lowerChar_idempotent, IH. reflexivity.
Qed.

(** X21. The response does not depend on letter case: two texts with the
    same lowercased form get the same response, and so a text and its own
    lowercased form do. *)
Theorem X21_response_ignores_case (t1 t2 : string) :
  toLowerCase t1 = toLowerCase t2 ->
  mockResponse t1 = mockResponse t2
  /\ mockResponse (toLowerCase t1) = mockResponse t1.
Proof.
  intro H. split.
  - unfold mockResponse. rewrite H. reflexivity.
  - unfold mockResponse. rewrite toLowerCase_idempotent. reflexivity.
Qed.

Lemma X21_response_ignores_case_witness :
  mockResponse "TELL ME ABOUT JAPAN" = mockResponse "Tell me about Japan".
Proof.
  apply (X21_response_ignores_case "TELL ME ABOUT JAPAN" "Tell me about Japan").
  reflexivity.
Defined.
End ChatExtras.
